(** * ai-ops-brain: the cash-flow projection and Monte Carlo engine

    A shallow embedding of [app/engine.py] and the properties its
    specification states about it.

    Modelling conventions.
    - Python numbers (the [float] amounts and the [int] counters mixed
      with them) are exact rationals [Q]; [round(x, n)] is rounding to
      the nearest multiple of [10^-n], ties to even, which is what Python
      does on the exact value of its argument.  Binary rounding error of
      the float operations is not modelled.
    - A call either returns a value or raises: [result].
    - [datetime.strptime(_, "%Y-%m-%d")] is a parameter [strptime] that
      gives the proleptic Gregorian ordinal of the day, or nothing where
      Python raises [ValueError]; subtracting a [timedelta] of whole days
      is subtraction of ordinals.
    - The process-wide generator of the [random] module is a state
      [rng] threaded through the calls, with [random.seed] and
      [random.random] as parameters.
    - The transaction dicts that [apply_scenario_modifiers] copies and
      updates live in a store indexed by object identity. *)

From Stdlib Require Import QArith Qround ZArith Lia Lqa Ascii String.
From stdpp Require Import base gmap strings list sorting.

(** ** Outcomes of a call *)

Inductive exn : Set :=
| ValueError
| ZeroDivisionError
| IndexError.

Inductive result (A : Type) : Type :=
| Ok (a : A)
| Raise (e : exn).

Arguments Ok {A} a.
Arguments Raise {A} e.

#[global] Instance result_ret : MRet result := @Ok.
#[global] Instance result_bind : MBind result :=
  λ A B f m, match m with Ok a => f a | Raise e => Raise e end.

#[global] Instance result_fmap : FMap result :=
  λ A B f m, match m with Ok a => Ok (f a) | Raise e => Raise e end.

Definition returns {A} (r : result A) : Prop := ∃ a, r = Ok a.
Definition raises {A} (r : result A) : Prop := ∃ e, r = Raise e.

(** ** Numbers *)

(** [round(x)] with no digits: nearest integer, ties to even. *)
Definition round_half_even (x : Q) : Z :=
  let f := Qfloor x in
  match (x - inject_Z f ?= 1 # 2)%Q with
  | Lt => f
  | Gt => (f + 1)%Z
  | Eq => if Z.even f then f else (f + 1)%Z
  end.

(** [round(x, ndigits)]. *)
Definition round_nd (x : Q) (ndigits : nat) : Q :=
  (inject_Z (round_half_even (x * inject_Z (10 ^ Z.of_nat ndigits)))
   / inject_Z (10 ^ Z.of_nat ndigits))%Q.

(** [a / b], which raises on a zero divisor. *)
Definition py_div (a b : Q) : result Q :=
  if Qeq_bool b 0 then Raise ZeroDivisionError else Ok (a / b)%Q.

(** [l[i]] with Python's negative indices. *)
Definition py_index {A} (l : list A) (i : Z) : result A :=
  let n := Z.of_nat (length l) in
  let j := if (i <? 0)%Z then (i + n)%Z else i in
  if (j <? 0)%Z then Raise IndexError
  else match l !! Z.to_nat j with
       | Some a => Ok a
       | None => Raise IndexError
       end.

(** [range(lo, hi)] *)
Definition py_range (lo hi : Z) : list Z :=
  (λ k, lo + Z.of_nat k)%Z <$> seq 0 (Z.to_nat (hi - lo)).

#[global] Instance Qle_dec : RelDecision Qle :=
  λ x y, decide (Qnum x * QDen y ≤ Qnum y * QDen x)%Z.
#[global] Instance Qlt_dec : RelDecision Qlt :=
  λ x y, decide (Qnum x * QDen y < Qnum y * QDen x)%Z.
#[global] Instance Qle_trans' : Transitive Qle := Qle_trans.
#[global] Instance Qle_total' : Total Qle.
Proof.
  intros x y. destruct (Qlt_le_dec x y) as [H|H]; [left; by apply Qlt_le_weak | by right].
Qed.

(** [sorted(l)] on numbers. *)
Definition sorted (l : list Q) : list Q := merge_sort Qle l.

(** ** Transactions *)

Record Transaction : Type := {
  date : string;
  amount : Q;
  type : string
}.

Definition is_income (tx : Transaction) : bool := bool_decide (type tx = "income").
Definition is_expense (tx : Transaction) : bool := bool_decide (type tx = "expense").

(** ** [calculate_cash_flow] (engine.py, lines 5-21) *)

Record CashFlow : Type := {
  total_income : Q;
  total_expense : Q;
  current_balance : Q
}.

Definition calculate_cash_flow (transactions : list Transaction) : CashFlow :=
  let '(total_income, total_expense) :=
    foldl (λ '(inc, exp) tx,
             if is_income tx then ((inc + amount tx)%Q, exp)
             else if is_expense tx then (inc, (exp + amount tx)%Q)
             else (inc, exp))
          (0%Q, 0%Q) transactions in
  {| total_income := total_income;
     total_expense := total_expense;
     current_balance := (total_income - total_expense)%Q |}.

(** ** [estimate_runway] and [risk_level] (lines 55-72) *)

(** A runway is a rounded quotient or [float("inf")]. *)
Inductive runway : Type :=
| Days (d : Q)
| Forever.

Definition estimate_runway (current_balance daily_burn : Q) : runway :=
  if Qeq_bool daily_burn 0 then Forever
  else Days (round_nd (current_balance / daily_burn) 2).

Definition risk_level (runway_days : runway) : string :=
  match runway_days with
  | Forever => "No Risk"
  | Days d =>
      if bool_decide (d < 7)%Q then "High Risk 🔴"
      else if bool_decide (d < 21)%Q then "Medium Risk 🟡"
      else "Low Risk 🟢"
  end.

(** ** [apply_scenario_modifiers] (lines 252-278) *)

(** The transaction dicts are objects: a list of transactions is a list
    of references into a store. *)
Abbreviation loc := nat (only parsing).
Abbreviation store := (gmap nat Transaction) (only parsing).

#[global] Instance Transaction_inhabited : Inhabited Transaction :=
  populate {| date := ""; amount := 0; type := "" |}.

(** [d["amount"] *= factor] *)
Definition scale_amount (factor : Q) (d : Transaction) : Transaction :=
  {| date := date d; amount := (amount d * factor)%Q; type := type d |}.

(** The body of the loop (lines 260-276), for the transaction at [tx]:
    [tx.copy()] is a new object with the contents of [tx], and each
    [new_tx["amount"] *= f] updates that object in place. *)
Definition adjust_transaction (scenario : string) (σ : store) (tx : loc)
  : loc * store :=
  let new_tx := fresh (dom σ) in
  let σ := <[new_tx := σ !!! tx]> σ in
  let σ :=
    if bool_decide (scenario = "optimistic") then
      let σ := if bool_decide (type (σ !!! tx) = "income")
               then alter (scale_amount (115 # 100)) new_tx σ else σ in
      let σ := if bool_decide (type (σ !!! tx) = "expense")
               then alter (scale_amount (95 # 100)) new_tx σ else σ in
      σ
    else if bool_decide (scenario = "conservative") then
      let σ := if bool_decide (type (σ !!! tx) = "income")
               then alter (scale_amount (85 # 100)) new_tx σ else σ in
      let σ := if bool_decide (type (σ !!! tx) = "expense")
               then alter (scale_amount (110 # 100)) new_tx σ else σ in
      σ
    else σ in
  (new_tx, σ).

Definition adjust_loop (scenario : string)
  (acc : list loc * store) (tx : loc) : list loc * store :=
  let '(new_tx, σ) := adjust_transaction scenario acc.2 tx in
  (acc.1 ++ [new_tx], σ).

Definition apply_scenario_modifiers
  (transactions : list loc) (scenario : string) (σ : store)
  : result (list loc) * store :=
  let '(adjusted, σ) := foldl (adjust_loop scenario) ([], σ) transactions in
  (Ok adjusted, σ).

(** The table of the specification: the factor a scenario applies to a
    transaction of a given kind (1 for a kind that is neither). *)
Definition scenario_factor (scenario kind : string) : Q :=
  if bool_decide (scenario = "optimistic") then
    if bool_decide (kind = "income") then 115 # 100
    else if bool_decide (kind = "expense") then 95 # 100 else 1
  else if bool_decide (scenario = "conservative") then
    if bool_decide (kind = "income") then 85 # 100
    else if bool_decide (kind = "expense") then 110 # 100 else 1
  else 1.


(** [c] is the first of the days [1..n] on which [bal] is at or below
    zero; no day at all when there is none. *)
Definition first_crossing (bal : nat → Q) (n : nat) (c : option Z) : Prop :=
  match c with
  | Some c =>
      ∃ k : nat, c = Z.of_nat k ∧ (1 ≤ k ≤ n)%nat ∧ (bal k <= 0)%Q ∧
                 ∀ j : nat, (1 ≤ j < k)%nat → ¬ (bal j <= 0)%Q
  | None => ∀ j : nat, (1 ≤ j ≤ n)%nat → ¬ (bal j <= 0)%Q
  end.

(** What [apply_scenario_modifiers] leaves in the store for the copy [d']
    of [d]. *)
Definition adjusted_copy (scenario : string) (d d' : Transaction) : Prop :=
  date d' = date d ∧ type d' = type d ∧
  (amount d' == amount d * scenario_factor scenario (type d))%Q ∧
  (scenario ≠ "optimistic" → scenario ≠ "conservative" → d' = d).

(** ** Projection points and the Monte Carlo summary *)

Record ProjectionPoint : Type := {
  day : Z;
  projected_balance : Q
}.

Record Summary : Type := {
  simulations : Z;
  projection_days : Z;
  window_days : Z;
  income_volatility : Q;
  burn_volatility : Q;
  probability_cashout : Q;
  cashout_count : Z;
  ending_balance_worst : Q;
  ending_balance_median : Q;
  ending_balance_best : Q;
  ending_balance_p10 : Q;
  ending_balance_p90 : Q;
  avg_cashout_day : option Q;
  min_cashout_day : option Z;
  max_cashout_day : option Z
}.

(** [sum(l)], [min(l)] and [max(l)]; the last two on a non-empty list. *)
Definition py_sum (l : list Q) : Q := foldl Qplus 0%Q l.
Definition py_min (l : list Z) : Z :=
  match l with [] => 0%Z | x :: l => foldl Z.min x l end.
Definition py_max (l : list Z) : Z :=
  match l with [] => 0%Z | x :: l => foldl Z.max x l end.

(** ** The engine, over the date parser and the random generator *)

Section Engine.

(** [datetime.strptime(s, "%Y-%m-%d")] as the ordinal of the day;
    [None] where it raises [ValueError]. *)
Variable strptime : string → option Z.

(** The state of the [random] module, [random.seed(n)] and
    [random.random()]. *)
Context {rng : Type}.
Variable random_seed : Z → rng.
Variable random_random : rng → Q * rng.

(** [random.uniform(a, b)] is [a + (b - a) * random()]. *)
Definition random_uniform (a b : Q) (g : rng) : Q * rng :=
  let '(r, g) := random_random g in ((a + (b - a) * r)%Q, g).

(** [{**tx, "parsed_date": tx_date}] (lines 35-36). *)
Definition parse_date (tx : Transaction) : result (Transaction * Z) :=
  match strptime (date tx) with
  | Some parsed_date => Ok (tx, parsed_date)
  | None => Raise ValueError
  end.

(** *** [estimate_burn_rate] (lines 24-52) *)

Definition estimate_burn_rate
  (transactions : list Transaction) (window_days : Z) : result Q :=
  match transactions with
  | [] => Ok 0%Q
  | _ =>
      parsed_transactions ← mapM parse_date transactions;
      let latest_date := py_max parsed_transactions.*2 in
      let window_start := (latest_date - window_days)%Z in
      let expense_total :=
        foldl (λ expense_total tx,
                 if is_expense tx.1 && bool_decide (window_start ≤ tx.2)%Z
                 then (expense_total + amount tx.1)%Q
                 else expense_total)
              0%Q parsed_transactions in
      daily_burn ← py_div expense_total (inject_Z window_days);
      Ok (round_nd daily_burn 2)
  end.

(** *** [project_cash_flow] (lines 124-183)

    The module defines [project_cash_flow] twice; the second definition,
    with the seed and the cashout day, replaces the first and is the one
    the orchestrator calls. *)

(** [income_dates] (lines 151-155): the income of each date string that
    has some.  Python adds the values up in the order of insertion; on
    exact rationals the order changes the sum by no more than [==]. *)
Definition income_by_date (transactions : list Transaction) : gmap string Q :=
  foldl (λ income_dates tx,
           if is_income tx
           then <[date tx := (default 0 (income_dates !! date tx) + amount tx)%Q]>
                  income_dates
           else income_dates)
        ∅ transactions.

(** [avg_income_per_income_day] and [income_frequency] (lines 157-162). *)
Definition income_pattern
  (transactions : list Transaction) (window_days : Z) : result (Q * Q) :=
  let income_dates := income_by_date transactions in
  if bool_decide (size income_dates = 0%nat) then Ok (0%Q, 0%Q)
  else
    avg_income_per_income_day ←
      py_div (map_fold (λ _ v acc, acc + v)%Q 0%Q income_dates)
             (inject_Z (Z.of_nat (size income_dates)));
    income_frequency ←
      py_div (inject_Z (Z.of_nat (size income_dates))) (inject_Z window_days);
    Ok (avg_income_per_income_day, income_frequency).

(** The quantities a run fixes before its loop (lines 147-162), and the
    two volatilities it was called with. *)
Record Setup : Type := {
  daily_burn : Q;
  avg_income_per_income_day : Q;
  income_frequency : Q;
  income_vol : Q;
  burn_vol : Q
}.

(** The balance after one more day (lines 169-176): the income and the
    burn of the day, each scaled by its own draw. *)
Definition day_balance (su : Setup) (st : rng * Q) : rng * Q :=
  let '(g, balance) := st in
  let '(g, balance) :=
    if bool_decide (0 < income_frequency su)%Q then
      let income_expected :=
        (avg_income_per_income_day su * income_frequency su)%Q in
      let '(u, g) := random_uniform (1 - income_vol su) (1 + income_vol su) g in
      let income_expected := (income_expected * u)%Q in
      (g, (balance + income_expected)%Q)
    else (g, balance) in
  let '(u, g) := random_uniform (1 - burn_vol su) (1 + burn_vol su) g in
  let burn := (daily_burn su * u)%Q in
  (g, (balance - burn)%Q).

(** The variables of the loop, and its body for the day [d] (lines
    167-181). *)
Record Run : Type := {
  gen : rng;
  balance : Q;
  projection : list ProjectionPoint;
  cashout_day : option Z
}.

Definition day_step (su : Setup) (st : Run) (d : Z) : Run :=
  let '(g, b) := day_balance su (gen st, balance st) in
  {| gen := g;
     balance := b;
     projection :=
       projection st ++ [{| day := d; projected_balance := round_nd b 2 |}];
     cashout_day :=
       match cashout_day st with
       | None => if bool_decide (b <= 0)%Q then Some d else None
       | Some c => Some c
       end |}.

(** The running balance, before rounding, after [k] days from the
    generator state [g] and the balance [b]. *)
Definition balance_after (su : Setup) (g : rng) (b : Q) (k : nat) : Q :=
  (Nat.iter k (day_balance su) (g, b)).2.

(** Lines 147-162: the burn rate, then the income pattern. *)
Definition run_setup (transactions : list Transaction)
  (window_days : Z) (income_volatility burn_volatility : Q) : result Setup :=
  daily_burn ← estimate_burn_rate transactions window_days;
  pattern ← income_pattern transactions window_days;
  Ok {| daily_burn := daily_burn;
        avg_income_per_income_day := pattern.1;
        income_frequency := pattern.2;
        income_vol := income_volatility;
        burn_vol := burn_volatility |}.

Definition project_cash_flow
  (transactions : list Transaction) (projection_days window_days : Z)
  (income_volatility burn_volatility : Q) (seed : option Z) (g : rng)
  : result (list ProjectionPoint * option Z) * rng :=
  let g := match seed with Some s => random_seed s | None => g end in
  match transactions with
  | [] => (Ok ([], None), g)
  | _ =>
      let cash_flow := calculate_cash_flow transactions in
      match run_setup transactions window_days
              income_volatility burn_volatility with
      | Raise e => (Raise e, g)
      | Ok su =>
          let st :=
            foldl (day_step su)
                  {| gen := g; balance := current_balance cash_flow;
                     projection := []; cashout_day := None |}
                  (py_range 1 (projection_days + 1)) in
          (Ok (projection st, cashout_day st), gen st)
      end
  end.

(** *** [run_monte_carlo_simulation] (lines 186-250) *)

(** [sim_seed] (line 203). *)
Definition sim_seed (seed : option Z) (i : Z) : option Z :=
  match seed with None => None | Some s => Some (s + i)%Z end.

(** The loop over the runs (lines 201-218): [endings] and [cashouts]
    grow run by run; a run that raises ends the call. *)
Fixpoint simulate
  (transactions : list Transaction) (projection_days window_days : Z)
  (income_volatility burn_volatility : Q) (seed : option Z)
  (indices : list Z) (endings : list Q) (cashouts : list Z) (g : rng)
  : result (list Q * list Z) * rng :=
  match indices with
  | [] => (Ok (endings, cashouts), g)
  | i :: indices =>
      let '(r, g) :=
        project_cash_flow transactions projection_days window_days
          income_volatility burn_volatility (sim_seed seed i) g in
      match r with
      | Raise e => (Raise e, g)
      | Ok (projection, cashout_day) =>
          match (match projection with
                 | [] => Ok 0%Q
                 | _ => projected_balance <$> py_index projection (-1)
                 end) with
          | Raise e => (Raise e, g)
          | Ok ending_balance =>
              simulate transactions projection_days window_days
                income_volatility burn_volatility seed indices
                (endings ++ [ending_balance])
                (cashouts ++ match cashout_day with
                             | Some c => [c]
                             | None => []
                             end)
                g
          end
      end
  end.



(** [percentile(p)] over [endings_sorted] (lines 223-228), and the index
    it reads. *)
Definition percentile_index (n : Z) (p : Q) : Z :=
  Z.max 0 (Z.min (n - 1) (round_half_even (p / 100 * inject_Z (n - 1)))).

Definition percentile (endings_sorted : list Q) (p : Q) : result Q :=
  let n := Z.of_nat (length endings_sorted) in
  if bool_decide (n = 0%Z) then Ok 0%Q
  else
    let idx := percentile_index n p in
    py_index endings_sorted idx.

(** The aggregation (lines 220-248). *)
Definition summarize
  (simulations projection_days window_days : Z)
  (income_volatility burn_volatility : Q)
  (endings : list Q) (cashouts : list Z) : result Summary :=
  let endings_sorted := sorted endings in
  let n := length endings_sorted in
  prob_cashout ←
    (if bool_decide (0 < simulations)%Z
     then py_div (inject_Z (Z.of_nat (length cashouts))) (inject_Z simulations)
     else Ok 0%Q);
  worst ← (if bool_decide (n = 0%nat) then Ok 0%Q
           else (λ x, round_nd x 2) <$> py_index endings_sorted 0);
  median ← percentile endings_sorted 50;
  best ← (if bool_decide (n = 0%nat) then Ok 0%Q
          else (λ x, round_nd x 2) <$> py_index endings_sorted (-1));
  p10 ← percentile endings_sorted 10;
  p90 ← percentile endings_sorted 90;
  avg ← (match cashouts with
         | [] => Ok None
         | _ =>
             a ← py_div (py_sum (inject_Z <$> cashouts))
                        (inject_Z (Z.of_nat (length cashouts)));
             Ok (Some (round_nd a 2))
         end);
  Ok {| simulations := simulations;
        projection_days := projection_days;
        window_days := window_days;
        income_volatility := income_volatility;
        burn_volatility := burn_volatility;
        probability_cashout := round_nd prob_cashout 4;
        cashout_count := Z.of_nat (length cashouts);
        ending_balance_worst := worst;
        ending_balance_median := round_nd median 2;
        ending_balance_best := best;
        ending_balance_p10 := round_nd p10 2;
        ending_balance_p90 := round_nd p90 2;
        avg_cashout_day := avg;
        min_cashout_day :=
          match cashouts with [] => None | _ => Some (py_min cashouts) end;
        max_cashout_day :=
          match cashouts with [] => None | _ => Some (py_max cashouts) end |}.

Definition run_monte_carlo_simulation
  (transactions : list Transaction) (simulations projection_days window_days : Z)
  (income_volatility burn_volatility : Q) (seed : option Z) (g : rng)
  : result Summary * rng :=
  let '(r, g) :=
    simulate transactions projection_days window_days
      income_volatility burn_volatility seed
      (py_range 0 simulations) [] [] g in
  match r with
  | Raise e => (Raise e, g)
  | Ok (endings, cashouts) =>
      (summarize simulations projection_days window_days
         income_volatility burn_volatility endings cashouts, g)
  end.

End Engine.

(** ** An instance to run the engine on

    A parser for the fixed-width dates [YYYY-MM-DD] and a generator whose
    draws are scripted, then continued by a linear congruential
    sequence.  The theorems below hold for every parser and generator;
    these two serve the worked runs. *)

Definition digit (c : ascii) : option Z :=
  let n := Z.of_N (N_of_ascii c) in
  if bool_decide (48 ≤ n ≤ 57)%Z then Some (n - 48)%Z else None.

Definition is_leap (y : Z) : bool :=
  bool_decide (y mod 4 = 0)%Z
  && (negb (bool_decide (y mod 100 = 0)%Z) || bool_decide (y mod 400 = 0)%Z).

Definition days_in_month (y m : Z) : Z :=
  if bool_decide (m = 2)%Z then (if is_leap y then 29 else 28)%Z
  else if bool_decide (m ∈ [4; 6; 9; 11]%Z) then 30%Z
  else 31%Z.

Definition days_before_year (y : Z) : Z :=
  let p := (y - 1)%Z in (p * 365 + p / 4 - p / 100 + p / 400)%Z.

Definition days_before_month (y m : Z) : Z :=
  foldr Z.add 0%Z (days_in_month y <$> py_range 1 m).

Definition ymd_ordinal (y m d : Z) : option Z :=
  if bool_decide (1 ≤ y ∧ 1 ≤ m ≤ 12 ∧ 1 ≤ d ≤ days_in_month y m)%Z
  then Some (days_before_year y + days_before_month y m + d)%Z
  else None.

Definition iso_strptime (s : string) : option Z :=
  match s with
  | String y1 (String y2 (String y3 (String y4 (String "-"
      (String m1 (String m2 (String "-"
        (String d1 (String d2 EmptyString))))))))) =>
      y1 ← digit y1; y2 ← digit y2; y3 ← digit y3; y4 ← digit y4;
      m1 ← digit m1; m2 ← digit m2; d1 ← digit d1; d2 ← digit d2;
      ymd_ordinal (y1 * 1000 + y2 * 100 + y3 * 10 + y4) (m1 * 10 + m2)
                  (d1 * 10 + d2)
  | _ => None
  end%Z.

Record script_rng : Type := {
  script : list Q;
  lcg : Z
}.

Definition script_seed (n : Z) : script_rng :=
  {| script := []; lcg := (n mod 2 ^ 31)%Z |}.

Definition script_random (g : script_rng) : Q * script_rng :=
  match script g with
  | r :: rest => (r, {| script := rest; lcg := lcg g |})
  | [] =>
      let x := ((1103515245 * lcg g + 12345) mod 2 ^ 31)%Z in
      ((inject_Z x / inject_Z (2 ^ 31))%Q, {| script := []; lcg := x |})
  end.

(** ** Worked runs *)

(** The balance recorded for day [k] in a projection. *)
Definition recorded (points : list ProjectionPoint) (k : nat) : Q :=
  default 0%Q (projected_balance <$> points !! (k - 1)%nat).

(** A ledger that starts at 200, earns 40 a day within a 0.9 volatility
    and burns 30 a day, and the draws that take it to -5 on day 10 and
    back to 20 on day 11. *)
Definition recovery_transactions : list Transaction :=
  [ {| date := "2024-03-01"; amount := 1200; type := "income" |};
    {| date := "2024-03-02"; amount := 900; type := "expense" |};
    {| date := "2023-01-01"; amount := 100; type := "expense" |} ].

Definition recovery_draws : list Q :=
  concat ((λ r, [r; 0%Q]) <$>
          (replicate 7 0 ++ [13 # 36; 13 # 36; 1 # 24; 17 # 24])%Q).

Definition recovery_rng : script_rng := {| script := recovery_draws; lcg := 0 |}.

Definition no_setup : Setup :=
  {| daily_burn := 0; avg_income_per_income_day := 0; income_frequency := 0;
     income_vol := 0; burn_vol := 0 |}.

Definition recovery_setup : Setup :=
  Eval vm_compute in
    match run_setup iso_strptime recovery_transactions 30 (9 # 10) 0 with
    | Ok su => su
    | Raise _ => no_setup
    end.

(** A ledger whose balance stays between 0 and half a cent. *)
Definition tiny_transactions : list Transaction :=
  [ {| date := "2024-01-01"; amount := 4 # 1000; type := "income" |} ].

(** The concrete scenario of the specification. *)
Definition sample_transactions : list Transaction :=
  [ {| date := "2024-01-01"; amount := 1000; type := "income" |};
    {| date := "2024-01-05"; amount := 200; type := "expense" |} ].

Definition one_sale : Transaction :=
  {| date := "2024-01-01"; amount := 1000; type := "income" |}.

(** A ledger with little room: 300 earned, 299 spent. *)
Definition thin_transactions : list Transaction :=
  [ {| date := "2024-01-01"; amount := 300; type := "income" |};
    {| date := "2024-01-10"; amount := 299; type := "expense" |} ].

(** A store with one sale and one bill, at the references 0 and 1. *)
Definition two_objects : gmap nat Transaction :=
  {[ 0%nat := one_sale;
     1%nat := {| date := "2024-01-05"; amount := 200; type := "expense" |} ]}.

(** ** The first [project_cash_flow] (lines 75-122)

    The definition that the second one replaces when the module loads:
    the same walk with the window fixed at 30 days and the bounds of the
    two draws written out, and no cashout day. *)

Section Superseded.

Variable strptime : string → option Z.
Context {rng : Type}.
Variable random_random : rng → Q * rng.

(** The body of its loop (lines 108-115). *)
Definition day_balance_first
  (daily_burn avg_income_per_income_day income_frequency : Q)
  (st : rng * Q) : rng * Q :=
  let '(g, projected_balance) := st in
  let '(g, projected_balance) :=
    if bool_decide (0 < income_frequency)%Q then
      let income_variation := (avg_income_per_income_day * income_frequency)%Q in
      let '(u, g) := random_uniform random_random (9 # 10) (11 # 10) g in
      let income_variation := (income_variation * u)%Q in
      (g, (projected_balance + income_variation)%Q)
    else (g, projected_balance) in
  let '(u, g) := random_uniform random_random (95 # 100) (105 # 100) g in
  let burn_variation := (daily_burn * u)%Q in
  (g, (projected_balance - burn_variation)%Q).

Definition day_step_first
  (daily_burn avg_income_per_income_day income_frequency : Q)
  (st : rng * Q * list ProjectionPoint) (d : Z)
  : rng * Q * list ProjectionPoint :=
  let '(g, b) :=
    day_balance_first daily_burn avg_income_per_income_day income_frequency
      st.1 in
  (g, b, st.2 ++ [{| day := d; projected_balance := round_nd b 2 |}]).

Definition project_cash_flow_first
  (transactions : list Transaction) (projection_days : Z) (g : rng)
  : result (list ProjectionPoint) * rng :=
  match transactions with
  | [] => (Ok [], g)
  | _ =>
      let cash_flow := calculate_cash_flow transactions in
      let current_balance := current_balance cash_flow in
      match estimate_burn_rate strptime transactions 30 with
      | Raise e => (Raise e, g)
      | Ok daily_burn =>
          let income_dates := income_by_date transactions in
          let '(avg_income_per_income_day, income_frequency) :=
            if bool_decide (size income_dates = 0%nat) then (0%Q, 0%Q)
            else
              ((map_fold (λ _ v acc, acc + v) 0 income_dates
                / inject_Z (Z.of_nat (size income_dates)))%Q,
               (inject_Z (Z.of_nat (size income_dates)) / 30)%Q) in
          let st :=
            foldl (day_step_first daily_burn avg_income_per_income_day
                     income_frequency)
                  (g, current_balance, [])
                  (py_range 1 (projection_days + 1)) in
          (Ok st.2, st.1.1)
      end
  end.

End Superseded.

(** ** The callers (main.py) *)

(** A dependency or a handler passes, or answers with an HTTP error. *)
Inductive http (A : Type) : Type :=
| Pass (a : A)
| HTTPException (status_code : Z) (detail : string).

Arguments Pass {A} a.
Arguments HTTPException {A} status_code detail.

(** [verify_api_key] (lines 8-13): [x_api_key] is the header, absent or
    a string; [API_KEY] is [os.getenv("API_KEY")], absent or a string. *)
Definition verify_api_key (API_KEY x_api_key : option string) : http unit :=
  match x_api_key with
  | None => HTTPException 401 "API key missing"
  | Some key =>
      if bool_decide (Some key ≠ API_KEY)
      then HTTPException 401 "Unauthorized"
      else Pass ()
  end.


Section Handlers.

Variable strptime : string → option Z.
Context {rng : Type}.
Variable random_seed : Z → rng.
Variable random_random : rng → Q * rng.



End Handlers.

(** The transactions a list of references stands for. *)
Definition deref (σ : gmap nat Transaction) (transactions : list nat)
  : list Transaction :=
  (σ !!!.) <$> transactions.

(** The amounts of the transactions of one kind, added up. *)
Definition kind_total (kind : string) (transactions : list Transaction) : Q :=
  foldr Qplus 0%Q (amount <$> filter (λ tx, type tx = kind) transactions).

(** The generator after [n] draws. *)
Definition after_draws {rng : Type} (random_random : rng → Q * rng)
  (n : nat) (g : rng) : rng :=
  Nat.iter n (λ g, (random_random g).2) g.

(** The net change of a day when both volatilities are 0, and the
    number of draws a day takes. *)
Definition daily_net (su : Setup) : Q :=
  ((if bool_decide (0 < income_frequency su)%Q
    then avg_income_per_income_day su * income_frequency su else 0)
   - daily_burn su)%Q.

Definition draws_per_day (su : Setup) : nat :=
  if bool_decide (0 < income_frequency su)%Q then 2 else 1.


Definition broken_transactions : list Transaction :=
  [ {| date := "2024-01-01"; amount := 100; type := "income" |};
    {| date := "01/05/2024"; amount := 20; type := "expense" |} ].


(** The balance of the ledger a scenario produces: what the runs of the
    orchestrator start from when it is given the adjusted transactions. *)
Definition scenario_balance
  (scenario : string) (σ : gmap nat Transaction) (transactions : list nat) : Q :=
  let '(r, σ') := apply_scenario_modifiers transactions scenario σ in
  match r with
  | Ok adjusted => current_balance (calculate_cash_flow (deref σ' adjusted))
  | Raise _ => 0%Q
  end.

(** * Properties *)

(** ** Rounding is monotone and keeps the integers *)

Section Rounding.
Local Open Scope Q_scope.

Lemma round_half_even_bounds x :
  (Qfloor x ≤ round_half_even x ≤ Qfloor x + 1)%Z.
Proof.
  unfold round_half_even.
  destruct (x - inject_Z (Qfloor x) ?= 1 # 2); [destruct (Z.even _)|..]; lia.
Qed.

Lemma round_half_even_proper x y : x == y → round_half_even x = round_half_even y.
Proof.
  intros E. unfold round_half_even.
  rewrite (Qfloor_comp _ _ E).
  assert (C : (x - inject_Z (Qfloor y) ?= 1 # 2) = (y - inject_Z (Qfloor y) ?= 1 # 2))
    by (apply Qcompare_comp; [by rewrite E | reflexivity]).
  by rewrite C.
Qed.

Lemma round_half_even_mono x y : x <= y → (round_half_even x ≤ round_half_even y)%Z.
Proof.
  intros L.
  pose proof (Qfloor_resp_le _ _ L) as Lf.
  destruct (Z.eq_dec (Qfloor x) (Qfloor y)) as [E|N].
  - unfold round_half_even. rewrite E.
    destruct (x - inject_Z (Qfloor y) ?= 1 # 2) eqn:Cx;
      destruct (y - inject_Z (Qfloor y) ?= 1 # 2) eqn:Cy;
      try (destruct (Z.even (Qfloor y)); lia); try lia; exfalso;
      first [apply Qeq_alt in Cx | apply Qlt_alt in Cx | apply Qgt_alt in Cx];
      first [apply Qeq_alt in Cy | apply Qlt_alt in Cy | apply Qgt_alt in Cy];
      lra.
  - pose proof (round_half_even_bounds x). pose proof (round_half_even_bounds y). lia.
Qed.

Lemma round_half_even_inject z : round_half_even (inject_Z z) = z.
Proof.
  unfold round_half_even. rewrite Qfloor_Z.
  assert (E : (inject_Z z - inject_Z z ?= 1 # 2) = Lt).
  { apply (proj1 (Qlt_alt _ _)). unfold Qlt; simpl; lia. }
  by rewrite E.
Qed.

Lemma pow10_pos n : 0 < inject_Z (10 ^ Z.of_nat n).
Proof.
  change 0 with (inject_Z 0). rewrite <- Zlt_Qlt. apply Z.pow_pos_nonneg; lia.
Qed.

Lemma round_nd_proper x y n : x == y → round_nd x n = round_nd y n.
Proof.
  intros E. unfold round_nd.
  rewrite (round_half_even_proper (x * _) (y * inject_Z (10 ^ Z.of_nat n))); [done|].
  by rewrite E.
Qed.

Lemma round_nd_mono x y n : x <= y → round_nd x n <= round_nd y n.
Proof.
  intros L. unfold round_nd.
  pose proof (pow10_pos n) as P.
  apply Qmult_le_compat_r.
  - rewrite <- Zle_Qle. apply round_half_even_mono.
    apply Qmult_le_compat_r; [done | by apply Qlt_le_weak].
  - apply Qlt_le_weak, Qinv_lt_0_compat, P.
Qed.

Lemma round_nd_inject z n : round_nd (inject_Z z) n == inject_Z z.
Proof.
  unfold round_nd. pose proof (pow10_pos n) as P.
  rewrite <- inject_Z_mult, round_half_even_inject, inject_Z_mult.
  field. lra.
Qed.
End Rounding.

Lemma bind_Ok {A B} (m : result A) (f : A → result B) b :
  m ≫= f = Ok b → ∃ a, m = Ok a ∧ f a = Ok b.
Proof. destruct m as [a|e]; [by exists a | done]. Qed.

Lemma fmap_Ok {A B} (f : A → B) (m : result A) b :
  f <$> m = Ok b → ∃ a, m = Ok a ∧ b = f a.
Proof. destruct m as [a|e]; [|done]. intros [= <-]. by exists a. Qed.

(** ** The sorted endings and the percentiles read from them *)

Section Sorting.
Local Open Scope Q_scope.

Lemma sorted_length l : length (sorted l) = length l.
Proof. unfold sorted. by rewrite merge_sort_Permutation. Qed.

Lemma sorted_StronglySorted l : StronglySorted Qle (sorted l).
Proof. apply StronglySorted_merge_sort; apply _. Qed.

Lemma sorted_elem_of x l : x ∈ sorted l ↔ x ∈ l.
Proof. unfold sorted. by rewrite merge_sort_Permutation. Qed.

Lemma StronglySorted_lookup_le (l : list Q) i j x y :
  StronglySorted Qle l → (i ≤ j)%nat →
  l !! i = Some x → l !! j = Some y → x <= y.
Proof.
  intros S. revert i j. induction S as [|a l S IH F]; intros i j Lij Hi Hj; [done|].
  destruct i as [|i], j as [|j]; simpl in *.
  - simplify_eq. apply Qle_refl.
  - simplify_eq. rewrite Forall_forall in F. apply F. by eapply list_elem_of_lookup_2.
  - lia.
  - eapply IH; [|done..]. lia.
Qed.

Lemma py_index_Ok {A} (l : list A) i a :
  py_index l i = Ok a →
  ∃ k, l !! k = Some a ∧
       Z.of_nat k = (if (i <? 0)%Z then i + Z.of_nat (length l) else i)%Z.
Proof.
  unfold py_index. intros H.
  destruct (_ <? 0)%Z eqn:Hj in H; [done|].
  apply Z.ltb_ge in Hj.
  destruct (l !! _) as [b|] eqn:Hl in H; [|done]. simplify_eq.
  eexists; split; [done|]. lia.
Qed.

Lemma py_index_in_range {A} (l : list A) i :
  (0 ≤ i < Z.of_nat (length l))%Z → ∃ a, py_index l i = Ok a ∧ l !! Z.to_nat i = Some a.
Proof.
  intros Hi. unfold py_index.
  destruct (Z.ltb_spec i 0); [lia|].
  destruct (Z.ltb_spec i 0); [lia|].
  destruct (lookup_lt_is_Some_2 l (Z.to_nat i)) as [a Ha]; [lia|].
  exists a. by rewrite Ha.
Qed.

Lemma percentile_index_range n p : (0 < n)%Z → (0 ≤ percentile_index n p < n)%Z.
Proof. unfold percentile_index. lia. Qed.

Lemma percentile_index_mono n p q : (0 < n)%Z → p <= q → (percentile_index n p ≤ percentile_index n q)%Z.
Proof.
  intros Hn L. unfold percentile_index.
  assert (round_half_even (p / 100 * inject_Z (n - 1))
          ≤ round_half_even (q / 100 * inject_Z (n - 1)))%Z; [|lia].
  apply round_half_even_mono.
  assert (0 <= inject_Z (n - 1)) by (change 0 with (inject_Z 0); rewrite <- Zle_Qle; lia).
  apply Qmult_le_compat_r; [|done].
  apply Qmult_le_compat_r; [done|]. by compute.
Qed.

Lemma percentile_nil p : percentile [] p = Ok 0.
Proof. done. Qed.

Lemma percentile_Ok l p x :
  l ≠ [] → percentile l p = Ok x →
  l !! Z.to_nat (percentile_index (Z.of_nat (length l)) p) = Some x.
Proof.
  intros Hl. unfold percentile.
  assert (0 < Z.of_nat (length l))%Z by (destruct l; [done | simpl; lia]).
  rewrite bool_decide_false by lia.
  intros (k & Hk & Ek)%py_index_Ok.
  pose proof (percentile_index_range (Z.of_nat (length l)) p ltac:(done)).
  destruct (Z.ltb_spec (percentile_index (Z.of_nat (length l)) p) 0); [lia|].
  by replace (Z.to_nat _) with k by lia.
Qed.

Lemma percentile_returns l p : returns (percentile l p).
Proof.
  destruct l as [|a l]; [by exists 0|].
  unfold percentile.
  rewrite bool_decide_false by (simpl; lia).
  destruct (py_index_in_range (a :: l) (percentile_index (Z.of_nat (length (a :: l))) p))
    as (x & Hx & _); [apply percentile_index_range; simpl; lia|].
  by exists x.
Qed.

Lemma percentile_mono l p q x y :
  StronglySorted Qle l → p <= q →
  percentile l p = Ok x → percentile l q = Ok y → x <= y.
Proof.
  intros S L Hx Hy. destruct (decide (l = [])) as [->|Hl].
  - rewrite percentile_nil in Hx, Hy. simplify_eq. apply Qle_refl.
  - apply percentile_Ok in Hx, Hy; [|done..].
    eapply StronglySorted_lookup_le; [done| |done..].
    assert (0 < Z.of_nat (length l))%Z by (destruct l; [done | simpl; lia]).
    pose proof (percentile_index_mono (Z.of_nat (length l)) p q ltac:(done) L).
    pose proof (percentile_index_range (Z.of_nat (length l)) p ltac:(done)). lia.
Qed.

Lemma first_le_percentile l p w x :
  StronglySorted Qle l → l ≠ [] →
  py_index l 0 = Ok w → percentile l p = Ok x → w <= x.
Proof.
  intros S Hl (k & Hk & Ek)%py_index_Ok Hx. simpl in Ek.
  apply percentile_Ok in Hx; [|done].
  eapply StronglySorted_lookup_le; [done| |done..]. lia.
Qed.

Lemma percentile_le_last l p b x :
  StronglySorted Qle l → l ≠ [] →
  py_index l (-1) = Ok b → percentile l p = Ok x → x <= b.
Proof.
  intros S Hl (k & Hk & Ek)%py_index_Ok Hx. simpl in Ek.
  apply percentile_Ok in Hx; [|done].
  eapply StronglySorted_lookup_le; [done| |done..].
  assert (0 < Z.of_nat (length l))%Z by (destruct l; [done | simpl; lia]).
  pose proof (percentile_index_range (Z.of_nat (length l)) p ltac:(done)). lia.
Qed.
End Sorting.

(** ** The scenario modifier on the store *)

Section Scenario.
Local Open Scope Q_scope.
Implicit Types (σ : gmap nat Transaction) (d : Transaction).

Lemma adjust_transaction_spec scenario σ tx d :
  σ !! tx = Some d →
  ∃ σ' d',
    adjust_transaction scenario σ tx = (fresh (dom σ), σ') ∧
    σ' !! fresh (dom σ) = Some d' ∧
    adjusted_copy scenario d d' ∧
    (∀ l, l ≠ fresh (dom σ) → σ' !! l = σ !! l).
Proof.
  intros Hd. unfold adjust_transaction.
  set (new_tx := fresh (dom σ)).
  assert (Hnew : new_tx ∉ dom σ) by apply is_fresh.
  assert (Hne : tx ≠ new_tx).
  { intros ->. apply Hnew. apply elem_of_dom. eauto. }
  assert (Hread : <[new_tx:=σ !!! tx]> σ !!! tx = d).
  { apply lookup_total_correct. by rewrite lookup_insert_ne. }
  assert (Hσ : σ !!! tx = d) by by apply lookup_total_correct.
  assert (Hread' : ∀ f, alter f new_tx (<[new_tx:=σ !!! tx]> σ) !!! tx = d).
  { intros f. apply lookup_total_correct.
    by rewrite lookup_alter_ne, lookup_insert_ne. }
  rewrite Hread, Hσ.
  unfold adjusted_copy, scenario_factor.
  repeat case_bool_decide; simplify_eq;
    rewrite ?Hread', ?Hread;
    repeat case_bool_decide; try congruence;
    eexists _, _; (split; [reflexivity|]);
    rewrite ?lookup_alter_eq, ?lookup_insert_eq; simpl;
    (split; [reflexivity|]);
    (split; [repeat split; simpl; try done; try ring; try congruence|]);
    intros l Hl; rewrite ?lookup_alter_ne, ?lookup_insert_ne by done; done.
Qed.

Lemma adjust_loop_spec scenario transactions : ∀ acc σ,
  (∀ l, l ∈ transactions → is_Some (σ !! l)) →
  ∃ news σ',
    foldl (adjust_loop scenario) (acc, σ) transactions = (acc ++ news, σ') ∧
    length news = length transactions ∧
    (∀ l, l ∈ dom σ → σ' !! l = σ !! l) ∧
    (∀ i l, transactions !! i = Some l →
       ∃ l' d d', news !! i = Some l' ∧ σ !! l = Some d ∧ σ' !! l' = Some d' ∧
                  (l' ∉ dom σ) ∧ adjusted_copy scenario d d').
Proof.
  induction transactions as [|tx transactions IH]; intros acc σ Hin.
  - exists [], σ. rewrite app_nil_r. do 3 (split; [done|]). intros i l [=].
  - destruct (Hin tx) as [d Hd]; [by left|].
    destruct (adjust_transaction_spec scenario σ tx d Hd)
      as (σ1 & d1 & Hadj & Hnew & Hcopy & Hframe).
    assert (Hfresh : fresh (dom σ) ∉ dom σ) by apply is_fresh.
    assert (Hkeep : ∀ l, l ∈ dom σ → σ1 !! l = σ !! l).
    { intros l Hl. apply Hframe. by intros ->. }
    destruct (IH (acc ++ [fresh (dom σ)]) σ1) as (news & σ' & Hfold & Hlen & Hold & Hnews).
    { intros l Hl. rewrite Hkeep; [apply Hin; by right|].
      apply elem_of_dom, Hin. by right. }
    assert (Hstep : adjust_loop scenario (acc, σ) tx = (acc ++ [fresh (dom σ)], σ1)).
    { unfold adjust_loop. cbn [fst snd]. by rewrite Hadj. }
    exists (fresh (dom σ) :: news), σ'. cbn [foldl]. rewrite Hstep, Hfold.
    split; [by rewrite <- app_assoc|]. split; [simpl; by rewrite Hlen|]. split.
    + intros l Hl. rewrite Hold, Hkeep; [done..|].
      apply elem_of_dom. rewrite Hkeep by done. by apply elem_of_dom.
    + intros [|i] l Hi; simpl in *.
      * simplify_eq. exists (fresh (dom σ)), d, d1.
        do 2 (split; [done|]). split; [|done].
        rewrite Hold; [done|]. apply elem_of_dom; eauto.
      * destruct (Hnews i l Hi) as (l' & d0 & d' & ? & Hl & ? & Hl' & ?).
        assert (l ∈ dom σ).
        { apply elem_of_dom, Hin. right. by eapply list_elem_of_lookup_2. }
        exists l', d0, d'. split; [done|]. split; [by rewrite <- Hkeep|].
        split; [done|]. split; [|done].
        intros Hd'. apply Hl'. apply elem_of_dom. rewrite Hkeep by done.
           by apply elem_of_dom.
Qed.

(** C6.  For the scenarios base, optimistic and conservative,
    [apply_scenario_modifiers] returns one new transaction object per
    input transaction, in order; each has the date and the kind of its
    input and the input's amount times the factor of the scenario (base
    1.00 and 1.00, optimistic 1.15 for income and 0.95 for expense,
    conservative 0.85 and 1.10).  The new objects are fresh, and every
    object that was in the store before the call, the inputs among them,
    is left as it was. *)
Theorem apply_scenario_modifiers_copies σ transactions scenario :
  scenario ∈ ["base"; "optimistic"; "conservative"] →
  (∀ l, l ∈ transactions → is_Some (σ !! l)) →
  ∃ adjusted σ',
    apply_scenario_modifiers transactions scenario σ = (Ok adjusted, σ') ∧
    length adjusted = length transactions ∧
    (∀ i l, transactions !! i = Some l →
       ∃ l' d d',
         adjusted !! i = Some l' ∧ σ !! l = Some d ∧ σ' !! l' = Some d' ∧
         (l' ∉ dom σ) ∧
         date d' = date d ∧ type d' = type d ∧
         amount d' == amount d * scenario_factor scenario (type d)) ∧
    (∀ l, l ∈ dom σ → σ' !! l = σ !! l).
Proof.
  intros _ Hin.
  destruct (adjust_loop_spec scenario transactions [] σ Hin)
    as (news & σ' & Hfold & Hlen & Hold & Hnews).
  exists news, σ'. unfold apply_scenario_modifiers. rewrite Hfold. simpl.
  repeat split; try done.
  intros i l Hi. destruct (Hnews i l Hi) as (l' & d & d' & ? & ? & ? & ? & ? & ? & ? & ?).
  by exists l', d, d'.
Qed.

(** C7, as the code has it.  A scenario name that is neither optimistic
    nor conservative, known or not, is not rejected: the call returns one
    new object per input transaction, each an exact copy of its input,
    and changes no object that was there before. *)
Theorem apply_scenario_modifiers_unknown σ transactions scenario :
  scenario ≠ "optimistic" → scenario ≠ "conservative" →
  (∀ l, l ∈ transactions → is_Some (σ !! l)) →
  ∃ adjusted σ',
    apply_scenario_modifiers transactions scenario σ = (Ok adjusted, σ') ∧
    length adjusted = length transactions ∧
    (∀ i l, transactions !! i = Some l →
       ∃ l' d, adjusted !! i = Some l' ∧ σ !! l = Some d ∧ σ' !! l' = Some d) ∧
    (∀ l, l ∈ dom σ → σ' !! l = σ !! l).
Proof.
  intros Ho Hc Hin.
  destruct (adjust_loop_spec scenario transactions [] σ Hin)
    as (news & σ' & Hfold & Hlen & Hold & Hnews).
  exists news, σ'. unfold apply_scenario_modifiers. rewrite Hfold. simpl.
  repeat split; try done.
  intros i l Hi. destruct (Hnews i l Hi) as (l' & d & d' & ? & ? & ? & ? & ? & ? & ? & Heq).
  specialize (Heq Ho Hc). subst d'. by exists l', d.
Qed.
End Scenario.


(** An unknown scenario name is not rejected: the call returns. *)
Lemma apply_scenario_modifiers_accepts_unknown :
  ("aggressive" ∉ ["base"; "optimistic"; "conservative"]) ∧
  returns (apply_scenario_modifiers [0%nat] "aggressive" {[0%nat := one_sale]}).1 ∧
  ¬ raises (apply_scenario_modifiers [0%nat] "aggressive" {[0%nat := one_sale]}).1.
Proof.
  split; [|split].
  - rewrite !elem_of_cons, elem_of_nil. intros [|[|[|[]]]]; discriminate.
  - eexists. vm_compute. reflexivity.
  - intros [e He]. vm_compute in He. discriminate.
Qed.

(** ** Minimum and maximum of a list *)

Section Lists.
Local Open Scope Z_scope.

Lemma foldl_max_spec l : ∀ a,
  foldl Z.max a l ∈ a :: l ∧ ∀ x, x ∈ a :: l → x ≤ foldl Z.max a l.
Proof.
  induction l as [|b l IH]; intros a; simpl.
  - split; [by left|]. intros x ?%list_elem_of_singleton. lia.
  - destruct (IH (Z.max a b)) as [Hin Hub]. split.
    + apply elem_of_cons in Hin as [Hin|Hin]; [|by do 2 right].
      rewrite Hin. destruct (Z.max_spec a b) as [[_ ->]|[_ ->]]; [right|]; by left.
    + intros x Hx. assert (Z.max a b ≤ foldl Z.max (Z.max a b) l) by (apply Hub; by left).
      apply elem_of_cons in Hx as [->|Hx]; [lia|].
      apply elem_of_cons in Hx as [->|Hx]; [lia|].
      apply Hub. by right.
Qed.

Lemma foldl_min_spec l : ∀ a,
  foldl Z.min a l ∈ a :: l ∧ ∀ x, x ∈ a :: l → foldl Z.min a l ≤ x.
Proof.
  induction l as [|b l IH]; intros a; simpl.
  - split; [by left|]. intros x ?%list_elem_of_singleton. lia.
  - destruct (IH (Z.min a b)) as [Hin Hub]. split.
    + apply elem_of_cons in Hin as [Hin|Hin]; [|by do 2 right].
      rewrite Hin. destruct (Z.min_spec a b) as [[_ ->]|[_ ->]]; [|right]; by left.
    + intros x Hx. assert (foldl Z.min (Z.min a b) l ≤ Z.min a b) by (apply Hub; by left).
      apply elem_of_cons in Hx as [->|Hx]; [lia|].
      apply elem_of_cons in Hx as [->|Hx]; [lia|].
      apply Hub. by right.
Qed.

Lemma py_max_spec l :
  l ≠ [] → py_max l ∈ l ∧ ∀ x, x ∈ l → x ≤ py_max l.
Proof. destruct l as [|a l]; [done|]. intros _. apply foldl_max_spec. Qed.

Lemma py_min_spec l :
  l ≠ [] → py_min l ∈ l ∧ ∀ x, x ∈ l → py_min l ≤ x.
Proof. destruct l as [|a l]; [done|]. intros _. apply foldl_min_spec. Qed.
End Lists.

(** ** Division *)

Section Division.
Local Open Scope Q_scope.

Lemma py_div_Ok a b : ¬ b == 0 → py_div a b = Ok (a / b).
Proof.
  intros Hb. unfold py_div.
  destruct (Qeq_bool b 0) eqn:E; [|done]. by apply Qeq_bool_eq in E.
Qed.

Lemma py_div_inv a b q : py_div a b = Ok q → ¬ b == 0 ∧ q = a / b.
Proof.
  unfold py_div. destruct (Qeq_bool b 0) eqn:E; [done|].
  intros [= <-]. split; [|done]. by apply Qeq_bool_neq.
Qed.

Lemma inject_Z_nonzero z : z ≠ 0%Z → ¬ inject_Z z == 0.
Proof. intros Hz E. apply Hz. change 0 with (inject_Z 0) in E. by apply inject_Z_injective. Qed.
End Division.

(** ** The burn rate *)

Section BurnRate.
Local Open Scope Q_scope.
Variable strptime : string → option Z.

Lemma mapM_parse_date transactions dates :
  Forall2 (λ tx d, strptime (date tx) = Some d) transactions dates →
  mapM (parse_date strptime) transactions = Ok (zip transactions dates).
Proof.
  induction 1 as [|tx d transactions dates Hd _ IH]; [done|].
  cbn [mapM zip zip_with].
  assert (parse_date strptime tx = Ok (tx, d)) as ->
    by (unfold parse_date; by rewrite Hd).
  cbn [mbind result_bind]. by rewrite IH.
Qed.


End BurnRate.

(** ** One run of the projection *)

Section Projection.
Local Open Scope Q_scope.
Variable strptime : string → option Z.
Context {rng : Type}.
Variable random_seed : Z → rng.
Variable random_random : rng → Q * rng.

Lemma py_range_from n lo : py_range lo (lo + Z.of_nat n) = (λ k, lo + Z.of_nat k)%Z <$> seq 0 n.
Proof. unfold py_range. do 2 f_equal. lia. Qed.

Lemma py_range_S lo n :
  py_range lo (lo + Z.of_nat (S n)) = py_range lo (lo + Z.of_nat n) ++ [(lo + Z.of_nat n)%Z].
Proof. rewrite !py_range_from, seq_S, fmap_app. done. Qed.

Lemma py_range_length lo hi : length (py_range lo hi) = Z.to_nat (hi - lo).
Proof. unfold py_range. by rewrite length_fmap, length_seq. Qed.

Lemma day_step_keeps_cashout su (st : Run) d c :
  cashout_day st = Some c → cashout_day (day_step random_random su st d) = Some c.
Proof.
  intros H. unfold day_step. destruct (day_balance _ _ _). simpl. by rewrite H.
Qed.

Lemma foldl_day_step_keeps_cashout su days : ∀ (st : Run) c,
  cashout_day st = Some c →
  cashout_day (foldl (day_step random_random su) st days) = Some c.
Proof.
  induction days as [|d days IH]; intros st c H; [done|].
  simpl. apply IH. by apply day_step_keeps_cashout.
Qed.

(** The state of the loop after the days [1..n]. *)
Lemma loop_after su g b (n : nat) :
  let st := foldl (day_step random_random su)
                  {| gen := g; balance := b; projection := []; cashout_day := None |}
                  (py_range 1 (1 + Z.of_nat n)) in
  (gen st, balance st) = Nat.iter n (day_balance random_random su) (g, b) ∧
  projection st
  = (λ k, {| day := Z.of_nat k;
             projected_balance := round_nd (balance_after random_random su g b k) 2 |})
      <$> seq 1 n ∧
  first_crossing (balance_after random_random su g b) n (cashout_day st).
Proof.
  induction n as [|n IH].
  - simpl. repeat split. intros j Hj. lia.
  - rewrite py_range_S, foldl_app. cbn [foldl].
    destruct IH as (Hst & Hproj & Hcash).
    set (st := foldl _ _ (py_range 1 (1 + Z.of_nat n))) in *.
    unfold day_step.
    change (Nat.iter (S n) (day_balance random_random su) (g, b))
      with (day_balance random_random su (Nat.iter n (day_balance random_random su) (g, b))).
    rewrite <- Hst.
    assert (Hb : balance_after random_random su g b (S n)
                 = (day_balance random_random su (gen st, balance st)).2).
    { unfold balance_after. simpl. by rewrite <- Hst. }
    destruct (day_balance random_random su (gen st, balance st)) as [g' b'] eqn:E.
    cbn [snd] in Hb. cbn [gen balance projection cashout_day].
    split; [done|]. split.
    + rewrite Hproj, seq_S, fmap_app. cbn [fmap list_fmap].
      change (1 + n)%nat with (S n). rewrite Hb.
      do 3 f_equal. lia.
    + destruct (cashout_day st) as [c|].
      * destruct Hcash as (k & -> & Hk & Hle & Hfirst).
        exists k. repeat split; try done; lia.
      * case_bool_decide as Hcross.
        -- exists (S n). rewrite Hb. repeat split; try lia; try done.
           intros j Hj. apply Hcash. lia.
        -- intros j Hj. destruct (decide (j = S n)) as [->|]; [by rewrite Hb|].
           apply Hcash. lia.
Qed.

Lemma first_crossing_extend bal n m c :
  (n ≤ m)%nat → first_crossing bal n (Some c) →
  ∀ c', first_crossing bal m c' → c' = Some c.
Proof.
  intros Hnm (k & -> & Hk & Hle & Hfirst) [c'|] H'; simpl in H'.
  - destruct H' as (k' & -> & Hk' & Hle' & Hfirst').
    destruct (Nat.lt_trichotomy k k') as [?|[->|?]]; [|done|].
    + destruct (Hfirst' k); [lia|done].
    + destruct (Hfirst k'); [lia|done].
  - destruct (H' k); [lia|done].
Qed.

(** C3, as the code has it.  A run of [project_cash_flow] records for
    each day [1..projection_days] the running balance rounded to 2
    decimal places, and its cashout day is the first day on which the
    running balance, before rounding, is at or below zero; there is none
    when no such day occurs.  Once set it stays: projecting further, over
    days on which the balance may recover, reports the same cashout
    day. *)
Theorem cashout_day_first_crossing
  transactions projection_days window_days income_volatility burn_volatility
  seed g su :
  transactions ≠ [] →
  run_setup strptime transactions window_days income_volatility burn_volatility
  = Ok su →
  let g0 := match seed with Some s => random_seed s | None => g end in
  let bal := balance_after random_random su g0
               (current_balance (calculate_cash_flow transactions)) in
  ∃ cashout g',
    project_cash_flow strptime random_seed random_random transactions
      projection_days window_days income_volatility burn_volatility seed g
    = (Ok ((λ k, {| day := Z.of_nat k;
                    projected_balance := round_nd (bal k) 2 |})
             <$> seq 1 (Z.to_nat projection_days),
           cashout), g') ∧
    first_crossing bal (Z.to_nat projection_days) cashout ∧
    (∀ k : nat,
       (1 ≤ k ≤ Z.to_nat projection_days)%nat → bal k <= 0 →
       (∀ j : nat, (1 ≤ j < k)%nat → ¬ bal j <= 0) →
       cashout = Some (Z.of_nat k)) ∧
    ∀ c longer,
      cashout = Some c → (projection_days ≤ longer)%Z →
      ∃ points g'',
        project_cash_flow strptime random_seed random_random transactions
          longer window_days income_volatility burn_volatility seed g
        = (Ok (points, Some c), g'').
Proof.
  intros Hne Hsu g0 bal.
  assert (Hrun : ∀ days,
    ∃ cashout g',
      project_cash_flow strptime random_seed random_random transactions
        days window_days income_volatility burn_volatility seed g
      = (Ok ((λ k, {| day := Z.of_nat k;
                      projected_balance := round_nd (bal k) 2 |})
               <$> seq 1 (Z.to_nat days),
             cashout), g') ∧
      first_crossing bal (Z.to_nat days) cashout).
  { intros days. unfold project_cash_flow. fold g0.
    destruct transactions as [|tx transactions]; [done|].
    rewrite Hsu.
    assert (py_range 1 (days + 1) = py_range 1 (1 + Z.of_nat (Z.to_nat days))) as ->
      by (unfold py_range; do 2 f_equal; lia).
    destruct (loop_after su g0 (current_balance (calculate_cash_flow (tx :: transactions)))
                (Z.to_nat days)) as (_ & Hproj & Hcash).
    eexists _, _. split; [|exact Hcash]. by rewrite Hproj. }
  destruct (Hrun projection_days) as (cashout & g' & Hp & Hc).
  exists cashout, g'. split; [done|]. split; [done|]. split.
  { intros k Hk Hle Hfirst.
    apply (first_crossing_extend bal (Z.to_nat projection_days)
             (Z.to_nat projection_days) (Z.of_nat k)); [done| |done].
    by exists k. }
  intros c longer -> Hlonger.
  destruct (Hrun longer) as (cashout' & g'' & Hp' & Hc').
  assert (Hle : (Z.to_nat projection_days ≤ Z.to_nat longer)%nat) by lia.
  rewrite (first_crossing_extend bal _ _ c Hle Hc _ Hc') in Hp'.
  eauto.
Qed.
End Projection.

(** ** The runs of the orchestrator and their seeds *)

Section MonteCarlo.
Local Open Scope Q_scope.
Variable strptime : string → option Z.
Context {rng : Type}.
Variable random_seed : Z → rng.
Variable random_random : rng → Q * rng.


Lemma py_index_last {A} (l : list A) :
  py_index l (-1) = match last l with Some a => Ok a | None => Raise IndexError end.
Proof.
  unfold py_index. rewrite last_lookup. cbn [Z.ltb Z.compare].
  destruct l as [|a l]; [done|].
  destruct (Z.ltb_spec (-1 + Z.of_nat (length (a :: l))) 0) as [H|H];
    [simpl in H; lia|].
  replace (Z.to_nat (-1 + Z.of_nat (length (a :: l)))) with (pred (length (a :: l)))
    by (simpl; lia).
  done.
Qed.

Lemma ending_balance_last (points : list ProjectionPoint) :
  match points with
  | [] => Ok 0
  | _ => projected_balance <$> py_index points (-1)
  end
  = Ok (match last points with
        | Some point => projected_balance point
        | None => 0
        end).
Proof.
  destruct points as [|p points]; [done|].
  rewrite py_index_last.
  destruct (last (p :: points)) eqn:E; [done|].
  by apply last_None in E.
Qed.


End MonteCarlo.

(** ** The summary of the collected runs *)

Section Summaries.
Local Open Scope Q_scope.

(** What [summarize] binds on its way to a summary. *)
Lemma summarize_inv
  sims pd wd iv bv endings cashouts s :
  summarize sims pd wd iv bv endings cashouts = Ok s →
  ∃ prob worst median best p10 p90 avg,
    (if bool_decide (0 < sims)%Z
     then py_div (inject_Z (Z.of_nat (length cashouts))) (inject_Z sims)
     else Ok 0) = Ok prob ∧
    (if bool_decide (length (sorted endings) = 0%nat) then Ok 0
     else (λ x, round_nd x 2) <$> py_index (sorted endings) 0) = Ok worst ∧
    percentile (sorted endings) 50 = Ok median ∧
    (if bool_decide (length (sorted endings) = 0%nat) then Ok 0
     else (λ x, round_nd x 2) <$> py_index (sorted endings) (-1)) = Ok best ∧
    percentile (sorted endings) 10 = Ok p10 ∧
    percentile (sorted endings) 90 = Ok p90 ∧
    (match cashouts with
     | [] => Ok None
     | _ => a ← py_div (py_sum (inject_Z <$> cashouts))
                       (inject_Z (Z.of_nat (length cashouts)));
            Ok (Some (round_nd a 2))
     end) = Ok avg ∧
    s = {| simulations := sims; projection_days := pd; window_days := wd;
           income_volatility := iv; burn_volatility := bv;
           probability_cashout := round_nd prob 4;
           cashout_count := Z.of_nat (length cashouts);
           ending_balance_worst := worst;
           ending_balance_median := round_nd median 2;
           ending_balance_best := best;
           ending_balance_p10 := round_nd p10 2;
           ending_balance_p90 := round_nd p90 2;
           avg_cashout_day := avg;
           min_cashout_day :=
             match cashouts with [] => None | _ => Some (py_min cashouts) end;
           max_cashout_day :=
             match cashouts with [] => None | _ => Some (py_max cashouts) end |}.
Proof.
  unfold summarize. intros H.
  apply bind_Ok in H as (prob & Hprob & H).
  apply bind_Ok in H as (worst & Hworst & H).
  apply bind_Ok in H as (median & Hmedian & H).
  apply bind_Ok in H as (best & Hbest & H).
  apply bind_Ok in H as (p10 & Hp10 & H).
  apply bind_Ok in H as (p90 & Hp90 & H).
  apply bind_Ok in H as (avg & Havg & H).
  injection H as <-.
  by exists prob, worst, median, best, p10, p90, avg.
Qed.

Lemma summarize_percentiles sims pd wd iv bv endings cashouts s :
  summarize sims pd wd iv bv endings cashouts = Ok s →
  ending_balance_worst s <= ending_balance_p10 s ∧
  ending_balance_p10 s <= ending_balance_median s ∧
  ending_balance_median s <= ending_balance_p90 s ∧
  ending_balance_p90 s <= ending_balance_best s.
Proof.
  intros (prob & worst & median & best & p10 & p90 & avg & _ & Hworst & Hmedian
          & Hbest & Hp10 & Hp90 & _ & ->)%summarize_inv.
  cbn [ending_balance_worst ending_balance_p10 ending_balance_median
       ending_balance_p90 ending_balance_best].
  pose proof (sorted_StronglySorted endings) as Hs.
  destruct (decide (sorted endings = [])) as [Hn|Hn].
  - rewrite Hn in *. rewrite percentile_nil in *.
    rewrite bool_decide_true in Hworst, Hbest by done. simplify_eq.
    pose proof (round_nd_inject 0 2) as E. change (inject_Z 0) with 0 in E.
    rewrite E. split_and!; apply Qle_refl.
  - assert (length (sorted endings) ≠ 0%nat) by (by intros ?%nil_length_inv).
    rewrite bool_decide_false in Hworst, Hbest by done.
    apply fmap_Ok in Hworst as (w & Hw & ->).
    apply fmap_Ok in Hbest as (b & Hb & ->).
    split_and!; apply round_nd_mono.
    + by eapply first_le_percentile.
    + eapply percentile_mono; [done| |done..]. by compute.
    + eapply percentile_mono; [done| |done..]. by compute.
    + by eapply percentile_le_last.
Qed.

Lemma py_sum_bounds (lo hi : Z) (l : list Z) : ∀ acc,
  (∀ x, x ∈ l → (lo ≤ x ≤ hi)%Z) →
  acc + inject_Z lo * inject_Z (Z.of_nat (length l))
  <= foldl Qplus acc (inject_Z <$> l)
  ∧ foldl Qplus acc (inject_Z <$> l)
    <= acc + inject_Z hi * inject_Z (Z.of_nat (length l)).
Proof.
  induction l as [|x l IH]; intros acc Hl.
  - simpl. split; ring_simplify; apply Qle_refl.
  - destruct (IH (acc + inject_Z x)) as [H1 H2]; [intros; apply Hl; by right|].
    destruct (Hl x) as [Hlo Hhi]; [by left|].
    rewrite Zle_Qle in Hlo, Hhi.
    cbn [fmap list_fmap foldl length]. rewrite Nat2Z.inj_succ, <- Z.add_1_r, inject_Z_plus.
    change (inject_Z 1) with 1. split; [etrans; [|exact H1] | etrans; [exact H2|]]; lra.
Qed.

Lemma average_between (l : list Z) a :
  l ≠ [] →
  py_div (py_sum (inject_Z <$> l)) (inject_Z (Z.of_nat (length l))) = Ok a →
  inject_Z (py_min l) <= round_nd a 2 <= inject_Z (py_max l).
Proof.
  intros Hl [Hlen ->]%py_div_inv.
  destruct (py_min_spec l Hl) as [_ Hmin], (py_max_spec l Hl) as [_ Hmax].
  destruct (py_sum_bounds (py_min l) (py_max l) l 0) as [H1 H2]; [naive_solver|].
  fold (py_sum (inject_Z <$> l)) in H1, H2.
  assert (Hpos : 0 < inject_Z (Z.of_nat (length l))).
  { change 0 with (inject_Z 0). rewrite <- Zlt_Qlt. destruct l; [done|simpl; lia]. }
  rewrite <- (round_nd_inject (py_min l) 2), <- (round_nd_inject (py_max l) 2).
  split; apply round_nd_mono.
  - apply Qle_shift_div_l; [done|]. lra.
  - apply Qle_shift_div_r; [done|]. lra.
Qed.

Lemma probability_between (count sims : Z) prob :
  (0 ≤ count ≤ sims)%Z → (1 ≤ sims)%Z →
  py_div (inject_Z count) (inject_Z sims) = Ok prob →
  0 <= round_nd prob 4 <= 1.
Proof.
  intros [H0 H1] Hs [_ ->]%py_div_inv.
  rewrite Zle_Qle in H0, H1.
  assert (Hpos : 0 < inject_Z sims).
  { change 0 with (inject_Z 0). rewrite <- Zlt_Qlt. lia. }
  pose proof (round_nd_inject 0 4) as E0. pose proof (round_nd_inject 1 4) as E1.
  change (inject_Z 0) with 0 in *. change (inject_Z 1) with 1 in *.
  split.
  - apply Qle_trans with (round_nd 0 4); [rewrite E0; apply Qle_refl|].
    apply round_nd_mono, Qle_shift_div_l; [done|]. lra.
  - apply Qle_trans with (round_nd 1 4); [|rewrite E1; apply Qle_refl].
    apply round_nd_mono, Qle_shift_div_r; [done|]. lra.
Qed.
End Summaries.

(** ** Invariants of the summary *)

Section Orchestrator.
Local Open Scope Q_scope.
Variable strptime : string → option Z.
Context {rng : Type}.
Variable random_seed : Z → rng.
Variable random_random : rng → Q * rng.

Lemma simulate_lengths
  transactions projection_days window_days income_volatility burn_volatility
  seed indices : ∀ endings cashouts g endings' cashouts' g',
  simulate strptime random_seed random_random transactions
    projection_days window_days income_volatility burn_volatility seed
    indices endings cashouts g = (Ok (endings', cashouts'), g') →
  length endings' = (length endings + length indices)%nat ∧
  (length cashouts ≤ length cashouts' ≤ length cashouts + length indices)%nat.
Proof.
  induction indices as [|i indices IH]; intros endings cashouts g endings' cashouts' g'.
  - intros [= <- <- <-]. simpl. lia.
  - cbn [simulate].
    destruct (project_cash_flow _ _ _ _ _ _ _ _ _ _) as [[[points c]|e] g1]; [|done].
    rewrite ending_balance_last. intros [He Hc]%IH.
    rewrite !length_app in *. destruct c; simpl in *; lia.
Qed.

Lemma run_monte_carlo_simulation_inv
  transactions simulations projection_days window_days
  income_volatility burn_volatility seed g s :
  (run_monte_carlo_simulation strptime random_seed random_random transactions
     simulations projection_days window_days income_volatility burn_volatility
     seed g).1 = Ok s →
  ∃ endings cashouts,
    length endings = Z.to_nat simulations ∧
    (length cashouts ≤ Z.to_nat simulations)%nat ∧
    summarize simulations projection_days window_days
      income_volatility burn_volatility endings cashouts = Ok s.
Proof.
  unfold run_monte_carlo_simulation.
  destruct (simulate _ _ _ _ _ _ _ _ _ _ _ _ _) as [[[endings cashouts]|e] g'] eqn:E;
    [|done].
  apply simulate_lengths in E as [He Hc]. rewrite py_range_length in *.
  cbn [fst]. intros Hs. exists endings, cashouts.
  rewrite Z.sub_0_r in *. simpl in *. split_and!; [lia|lia|done].
Qed.

(** C4.  Every summary that [run_monte_carlo_simulation] returns has
    [ending_balance_p10 <= ending_balance_median <= ending_balance_p90]:
    the three are read at the nearest-rank indices of the sorted ending
    balances and rounded. *)
Theorem percentiles_ordered
  transactions simulations projection_days window_days
  income_volatility burn_volatility seed g s :
  (run_monte_carlo_simulation strptime random_seed random_random transactions
     simulations projection_days window_days income_volatility burn_volatility
     seed g).1 = Ok s →
  ending_balance_p10 s <= ending_balance_median s ∧
  ending_balance_median s <= ending_balance_p90 s.
Proof.
  intros (endings & cashouts & _ & _ & Hs)%run_monte_carlo_simulation_inv.
  apply summarize_percentiles in Hs. tauto.
Qed.

(** C10.  For [simulations >= 1], every summary that
    [run_monte_carlo_simulation] returns has a probability of cashout
    between 0 and 1, a cashout count between 0 and [simulations], worst
    at most p10 and p90 at most best; with a positive cashout count the
    minimum, average and maximum cashout days are present and ordered,
    and with a cashout count of 0 all three are absent. *)
Theorem summary_invariants
  transactions simulations projection_days window_days
  income_volatility burn_volatility seed g s :
  (1 ≤ simulations)%Z →
  (run_monte_carlo_simulation strptime random_seed random_random transactions
     simulations projection_days window_days income_volatility burn_volatility
     seed g).1 = Ok s →
  0 <= probability_cashout s <= 1 ∧
  (0 ≤ cashout_count s ≤ simulations)%Z ∧
  ending_balance_worst s <= ending_balance_p10 s ∧
  ending_balance_p90 s <= ending_balance_best s ∧
  ((0 < cashout_count s)%Z →
   ∃ lo avg hi,
     min_cashout_day s = Some lo ∧ avg_cashout_day s = Some avg ∧
     max_cashout_day s = Some hi ∧ inject_Z lo <= avg <= inject_Z hi) ∧
  (cashout_count s = 0%Z →
   min_cashout_day s = None ∧ avg_cashout_day s = None ∧
   max_cashout_day s = None).
Proof.
  intros Hsims (endings & cashouts & He & Hc & Hs)%run_monte_carlo_simulation_inv.
  pose proof (summarize_percentiles _ _ _ _ _ _ _ _ Hs) as (Hw & _ & _ & Hb).
  apply summarize_inv in Hs
    as (prob & worst & median & best & p10 & p90 & avg & Hprob & _ & _ & _ & _ & _
        & Havg & ->).
  cbn [probability_cashout cashout_count ending_balance_worst ending_balance_p10
       ending_balance_p90 ending_balance_best min_cashout_day avg_cashout_day
       max_cashout_day] in *.
  rewrite bool_decide_true in Hprob by lia.
  split_and!; [| |lia|lia|done|done|..].
  - eapply probability_between; [|done|done]. lia.
  - eapply probability_between; [|done|done]. lia.
  - intros Hpos. destruct cashouts as [|c cashouts]; [simpl in Hpos; lia|].
    apply bind_Ok in Havg as (a & Ha & [= <-]).
    eexists _, _, _. split_and!; [done..| |];
      eapply average_between; done.
  - intros Hzero. destruct cashouts as [|c cashouts]; [|simpl in Hzero; lia].
    by simplify_eq.
Qed.

(** C8, as the code has it.  With [simulations <= 0] the orchestrator
    rejects nothing: it makes no run, leaves the generator as it was and
    returns a summary that echoes [simulations], with probability 0,
    count 0, all five ending balances 0 and no cashout days. *)
Theorem no_simulations_summary
  transactions requested projection_days window_days
  income_volatility burn_volatility seed g :
  (requested ≤ 0)%Z →
  ∃ s,
    run_monte_carlo_simulation strptime random_seed random_random transactions
      requested projection_days window_days income_volatility burn_volatility
      seed g = (Ok s, g) ∧
    simulations s = requested ∧
    probability_cashout s == 0 ∧ cashout_count s = 0%Z ∧
    ending_balance_worst s == 0 ∧ ending_balance_p10 s == 0 ∧
    ending_balance_median s == 0 ∧ ending_balance_p90 s == 0 ∧
    ending_balance_best s == 0 ∧
    avg_cashout_day s = None ∧ min_cashout_day s = None ∧
    max_cashout_day s = None.
Proof.
  intros Hsims. unfold run_monte_carlo_simulation, py_range.
  replace (Z.to_nat (requested - 0)) with 0%nat by lia.
  cbn [seq fmap list_fmap simulate]. unfold summarize.
  rewrite (bool_decide_false (0 < requested)%Z) by lia.
  eexists. split; [reflexivity|]. by vm_compute.
Qed.
End Orchestrator.

(** ** The empty ledger *)

Section Empty.
Local Open Scope Q_scope.
Variable strptime : string → option Z.
Context {rng : Type}.
Variable random_seed : Z → rng.
Variable random_random : rng → Q * rng.

Lemma sorted_replicate n (x : Q) : sorted (replicate n x) = replicate n x.
Proof.
  symmetry. apply replicate_as_Forall. split.
  - by rewrite sorted_length, length_replicate.
  - apply Forall_forall. intros y Hy.
    apply (proj1 (sorted_elem_of _ _)) in Hy.
    by apply elem_of_replicate in Hy as [-> _].
Qed.

Lemma py_index_replicate {A} n (x : A) i :
  (- Z.of_nat n ≤ i < Z.of_nat n)%Z → py_index (replicate n x) i = Ok x.
Proof.
  intros Hi. unfold py_index. rewrite length_replicate.
  destruct (Z.ltb_spec i 0).
  - destruct (Z.ltb_spec (i + Z.of_nat n) 0); [lia|].
    by rewrite lookup_replicate_2 by lia.
  - destruct (Z.ltb_spec i 0); [lia|].
    by rewrite lookup_replicate_2 by lia.
Qed.

Lemma percentile_replicate n x p :
  percentile (replicate n x) p = Ok (if bool_decide (n = 0%nat) then 0 else x).
Proof.
  unfold percentile. rewrite length_replicate.
  destruct n as [|n]; [done|].
  rewrite bool_decide_false by lia. rewrite bool_decide_false by lia.
  apply py_index_replicate.
  pose proof (percentile_index_range (Z.of_nat (S n)) p). lia.
Qed.

Lemma simulate_empty
  projection_days window_days income_volatility burn_volatility seed indices :
  ∀ endings cashouts g,
  ∃ g',
    simulate strptime random_seed random_random []
      projection_days window_days income_volatility burn_volatility seed
      indices endings cashouts g
    = (Ok (endings ++ replicate (length indices) 0, cashouts), g').
Proof.
  induction indices as [|i indices IH]; intros endings cashouts g.
  - exists g. by rewrite app_nil_r.
  - cbn [simulate project_cash_flow].
    destruct (IH (endings ++ [0]) (cashouts ++ [])
                match sim_seed seed i with Some s => random_seed s | None => g end)
      as [g' Hg'].
    exists g'. rewrite Hg', <- app_assoc, app_nil_r. done.
Qed.

Lemma round_nd_zero x n : x == 0 → round_nd x n == 0.
Proof. intros E. rewrite (round_nd_proper x 0 n E). apply (round_nd_inject 0). Qed.

(** C9.  On the empty transaction sequence nothing raises:
    [calculate_cash_flow] gives three zeros, [estimate_burn_rate] gives
    0, [project_cash_flow] gives an empty projection and no cashout day,
    and the Monte Carlo summary, for any number of simulations, has
    probability of cashout 0, no cashouts, and worst, p10, median, p90
    and best all 0. *)
Theorem empty_transactions
  simulations projection_days window_days income_volatility burn_volatility
  seed g :
  calculate_cash_flow []
  = {| total_income := 0; total_expense := 0; current_balance := 0 |} ∧
  estimate_burn_rate strptime [] window_days = Ok 0 ∧
  (project_cash_flow strptime random_seed random_random []
     projection_days window_days income_volatility burn_volatility seed g).1
  = Ok ([], None) ∧
  ∃ s g',
    run_monte_carlo_simulation strptime random_seed random_random []
      simulations projection_days window_days income_volatility burn_volatility
      seed g = (Ok s, g') ∧
    probability_cashout s == 0 ∧ cashout_count s = 0%Z ∧
    ending_balance_worst s == 0 ∧ ending_balance_p10 s == 0 ∧
    ending_balance_median s == 0 ∧ ending_balance_p90 s == 0 ∧
    ending_balance_best s == 0.
Proof.
  split; [done|]. split; [done|]. split; [done|].
  unfold run_monte_carlo_simulation.
  destruct (simulate_empty projection_days window_days income_volatility
              burn_volatility seed (py_range 0 simulations) [] [] g) as [g' ->].
  cbn [app]. unfold summarize.
  rewrite sorted_replicate, !percentile_replicate, length_replicate.
  set (n := length (py_range 0 simulations)).
  assert (Hprob : ∃ prob,
    (if bool_decide (0 < simulations)%Z
     then py_div (inject_Z (Z.of_nat (length (@nil Z)))) (inject_Z simulations)
     else Ok 0) = Ok prob ∧ prob == 0).
  { case_bool_decide.
    - rewrite py_div_Ok by (apply inject_Z_nonzero; lia).
      eexists. split; [done|]. simpl. field. apply inject_Z_nonzero; lia.
    - by exists 0. }
  destruct Hprob as (prob & -> & Hprob).
  destruct (decide (n = 0%nat)) as [Hn|Hn].
  - rewrite !(bool_decide_true (n = 0%nat)) by done. cbn.
    eexists _, _. split; [done|]. cbn.
    split_and!; try done; by apply round_nd_zero.
  - rewrite !(bool_decide_false (n = 0%nat)) by done.
    rewrite !py_index_replicate by lia. cbn.
    eexists _, _. split; [done|]. cbn.
    split_and!; try done; by apply round_nd_zero.
Qed.
End Empty.

(** ** When the orchestrator returns *)

Section Totality.
Local Open Scope Q_scope.
Variable strptime : string → option Z.
Context {rng : Type}.
Variable random_seed : Z → rng.
Variable random_random : rng → Q * rng.

Lemma parsed_dates transactions :
  Forall (λ tx, is_Some (strptime (date tx))) transactions →
  ∃ dates, Forall2 (λ tx d, strptime (date tx) = Some d) transactions dates.
Proof.
  induction 1 as [|tx transactions [d Hd] _ [dates IH]]; [by exists []|].
  exists (d :: dates). by constructor.
Qed.

Lemma estimate_burn_rate_returns transactions window_days :
  Forall (λ tx, is_Some (strptime (date tx))) transactions →
  window_days ≠ 0%Z →
  returns (estimate_burn_rate strptime transactions window_days).
Proof.
  intros [dates Hd]%parsed_dates Hw. unfold estimate_burn_rate.
  destruct transactions as [|tx transactions]; [by eexists|].
  rewrite (mapM_parse_date _ _ _ Hd). cbn [mbind result_bind].
  rewrite py_div_Ok by by apply inject_Z_nonzero. by eexists.
Qed.

Lemma income_pattern_returns transactions window_days :
  window_days ≠ 0%Z → returns (income_pattern transactions window_days).
Proof.
  intros Hw. unfold income_pattern. case_bool_decide; [by eexists|].
  rewrite !py_div_Ok by (apply inject_Z_nonzero; lia). by eexists.
Qed.

Lemma run_setup_returns
  transactions window_days income_volatility burn_volatility :
  Forall (λ tx, is_Some (strptime (date tx))) transactions →
  window_days ≠ 0%Z →
  returns (run_setup strptime transactions window_days
             income_volatility burn_volatility).
Proof.
  intros Hd Hw. unfold run_setup.
  destruct (estimate_burn_rate_returns _ _ Hd Hw) as [burn -> ].
  destruct (income_pattern_returns transactions _ Hw) as [pattern -> ].
  by eexists.
Qed.

Lemma project_cash_flow_returns
  transactions projection_days window_days income_volatility burn_volatility
  seed g :
  Forall (λ tx, is_Some (strptime (date tx))) transactions →
  window_days ≠ 0%Z →
  returns (project_cash_flow strptime random_seed random_random transactions
             projection_days window_days income_volatility burn_volatility
             seed g).1.
Proof.
  intros Hd Hw. unfold project_cash_flow.
  destruct transactions as [|tx transactions]; [by eexists|].
  destruct (run_setup_returns _ _ income_volatility burn_volatility Hd Hw)
    as [su -> ].
  by eexists.
Qed.

Lemma simulate_returns
  transactions projection_days window_days income_volatility burn_volatility
  seed indices : ∀ endings cashouts g,
  Forall (λ tx, is_Some (strptime (date tx))) transactions →
  window_days ≠ 0%Z →
  returns (simulate strptime random_seed random_random transactions
             projection_days window_days income_volatility burn_volatility
             seed indices endings cashouts g).1.
Proof.
  induction indices as [|i indices IH]; intros endings cashouts g Hd Hw;
    [by eexists|].
  cbn [simulate].
  destruct (project_cash_flow_returns transactions projection_days window_days
              income_volatility burn_volatility (sim_seed seed i) g Hd Hw)
    as [[points c] Hrun].
  destruct (project_cash_flow _ _ _ _ _ _ _ _ _ _) as [r g1].
  cbn [fst] in Hrun. subst r. rewrite ending_balance_last. by apply IH.
Qed.

Lemma summarize_returns
  simulations projection_days window_days income_volatility burn_volatility
  endings cashouts :
  returns (summarize simulations projection_days window_days
             income_volatility burn_volatility endings cashouts).
Proof.
  unfold summarize.
  assert (Hprob : returns
    (if bool_decide (0 < simulations)%Z
     then py_div (inject_Z (Z.of_nat (length cashouts))) (inject_Z simulations)
     else Ok 0)).
  { case_bool_decide; [|by eexists].
    rewrite py_div_Ok by (apply inject_Z_nonzero; lia). by eexists. }
  destruct Hprob as [prob -> ].
  assert (Hends : ∀ i, i = 0%Z ∨ i = (-1)%Z → returns
    (if bool_decide (length (sorted endings) = 0%nat) then Ok 0
     else (λ x, round_nd x 2) <$> py_index (sorted endings) i)).
  { intros i Hi. case_bool_decide as Hn; [by eexists|].
    destruct Hi as [-> | ->].
    - destruct (py_index_in_range (sorted endings) 0) as (x & -> & _); [lia|].
      by eexists.
    - rewrite py_index_last. destruct (last (sorted endings)) eqn:E; [by eexists|].
      apply last_None in E. by rewrite E in Hn. }
  destruct (Hends 0%Z) as [worst -> ]; [by left|].
  destruct (Hends (-1)%Z) as [best -> ]; [by right|].
  destruct (percentile_returns (sorted endings) 50) as [median -> ].
  destruct (percentile_returns (sorted endings) 10) as [p10 -> ].
  destruct (percentile_returns (sorted endings) 90) as [p90 -> ].
  cbn [mbind result_bind].
  destruct cashouts as [|c cashouts]; [by eexists|].
  rewrite py_div_Ok by (apply inject_Z_nonzero; simpl; lia). by eexists.
Qed.

(** With dates that parse and a window that is not zero, the
    orchestrator returns a summary. *)
Theorem run_monte_carlo_simulation_returns
  transactions simulations projection_days window_days
  income_volatility burn_volatility seed g :
  Forall (λ tx, is_Some (strptime (date tx))) transactions →
  window_days ≠ 0%Z →
  returns (run_monte_carlo_simulation strptime random_seed random_random
             transactions simulations projection_days window_days
             income_volatility burn_volatility seed g).1.
Proof.
  intros Hd Hw. unfold run_monte_carlo_simulation.
  destruct (simulate_returns transactions projection_days window_days
              income_volatility burn_volatility seed (py_range 0 simulations)
              [] [] g Hd Hw) as [[endings cashouts] Hsim].
  destruct (simulate _ _ _ _ _ _ _ _ _ _ _ _ _) as [r g'].
  cbn [fst] in Hsim. subst r. cbn [fst]. apply summarize_returns.
Qed.
End Totality.

(** * The risk tiers *)

Local Open Scope Q_scope.

(** C5.  [risk_level] answers "No Risk" for an infinite runway, the
    High Risk label below 7, the Medium Risk label from 7 up to but not
    21, and the Low Risk label from 21 on; 7 itself is Medium and 21
    itself is Low.  The three labels are the tier names followed by the
    coloured mark of the source. *)
Theorem risk_level_tiers d :
  risk_level Forever = "No Risk" ∧
  (d < 7 → risk_level (Days d) = "High Risk 🔴") ∧
  (7 <= d → d < 21 → risk_level (Days d) = "Medium Risk 🟡") ∧
  (21 <= d → risk_level (Days d) = "Low Risk 🟢") ∧
  risk_level (Days 7) = "Medium Risk 🟡" ∧
  risk_level (Days 21) = "Low Risk 🟢" ∧
  String.prefix "High Risk" "High Risk 🔴" = true ∧
  String.prefix "Medium Risk" "Medium Risk 🟡" = true ∧
  String.prefix "Low Risk" "Low Risk 🟢" = true.
Proof.
  unfold risk_level. split_and!; try done.
  - intros H. by rewrite bool_decide_true.
  - intros H1 H2. rewrite bool_decide_false by by apply Qle_not_lt.
    by rewrite bool_decide_true.
  - intros H.
    rewrite (bool_decide_false (d < 7))
      by (apply Qle_not_lt, Qle_trans with 21; [by compute|done]).
    by rewrite (bool_decide_false (d < 21)) by by apply Qle_not_lt.
Qed.

(** * Worked runs of the properties *)

(** The run of the specification: down to -5 on day 10, back up to 20 on
    day 11.  Its cashout day is 10, and stays 10 however far the
    projection goes. *)
Lemma cashout_day_first_crossing_witness :
  recovery_transactions ≠ [] ∧
  run_setup iso_strptime recovery_transactions 30 (9 # 10) 0 = Ok recovery_setup ∧
  ∃ points g',
    project_cash_flow iso_strptime script_seed script_random
      recovery_transactions 11 30 (9 # 10) 0 None recovery_rng
    = (Ok (points, Some 10%Z), g') ∧
    recorded points 9 == 18 ∧ recorded points 10 == -5 ∧
    recorded points 11 == 20 ∧
    ∀ longer,
      (11 ≤ longer)%Z →
      ∃ points' g'',
        project_cash_flow iso_strptime script_seed script_random
          recovery_transactions longer 30 (9 # 10) 0 None recovery_rng
        = (Ok (points', Some 10%Z), g'').
Proof.
  assert (Hsetup : run_setup iso_strptime recovery_transactions 30 (9 # 10) 0
                   = Ok recovery_setup) by (vm_compute; reflexivity).
  split; [done|]. split; [exact Hsetup|].
  destruct (cashout_day_first_crossing iso_strptime script_seed script_random
              recovery_transactions 11 30 (9 # 10) 0 None recovery_rng
              recovery_setup ltac:(done) Hsetup)
    as (cashout & g' & Hrun & _ & _ & Hkeep).
  assert (Hday : cashout = Some 10%Z).
  { pose proof Hrun as Hvalue. vm_compute in Hvalue.
    by injection Hvalue as <- _. }
  subst cashout. eexists _, g'. split; [exact Hrun|].
  split; [by vm_compute|]. split; [by vm_compute|]. split; [by vm_compute|].
  intros longer Hlonger. by apply Hkeep.
Defined.

(** A balance between 0 and half a cent is recorded as 0.00 and is no
    cashout: the day the recorded balance first is at or below zero is
    not the cashout day. *)
Lemma cashout_day_misses_rounded_zero :
  ∃ points cashout,
    (project_cash_flow iso_strptime script_seed script_random
       tiny_transactions 1 30 (1 # 10) (5 # 100) (Some 42%Z) (script_seed 0)).1
    = Ok (points, cashout) ∧
    ¬ first_crossing (recorded points) 1 cashout.
Proof.
  vm_compute. eexists _, _. split; [reflexivity|].
  intros H. apply (H 1%nat); [lia|]. vm_compute. discriminate.
Qed.


(** The concrete scenario of the specification: a balance of 800 at a
    burn of 6.67 a day is a runway of 119.94 days, which is Low Risk. *)
Lemma risk_level_tiers_witness :
  estimate_runway 800 (667 # 100) = Days (11994 # 100) ∧
  risk_level (Days (11994 # 100)) = "Low Risk 🟢".
Proof.
  split; [vm_compute; reflexivity|].
  destruct (risk_level_tiers (11994 # 100)) as (_ & _ & _ & Hlow & _).
  apply Hlow. by compute.
Defined.


(** Six runs of eight days on the thin ledger. *)
Lemma percentiles_ordered_witness :
  ∃ s,
    (run_monte_carlo_simulation iso_strptime script_seed script_random
       thin_transactions 6 8 30 (1 # 10) (5 # 100) (Some 42%Z) (script_seed 0)).1
    = Ok s ∧
    ending_balance_p10 s <= ending_balance_median s ∧
    ending_balance_median s <= ending_balance_p90 s.
Proof.
  eexists. split; [vm_compute; reflexivity|].
  apply (percentiles_ordered iso_strptime script_seed script_random
           thin_transactions 6 8 30 (1 # 10) (5 # 100) (Some 42%Z) (script_seed 0)).
  vm_compute; reflexivity.
Defined.

(** The same six runs: one of them cashes out. *)
Lemma summary_invariants_witness :
  ∃ s,
    (run_monte_carlo_simulation iso_strptime script_seed script_random
       thin_transactions 6 8 30 (1 # 10) (5 # 100) (Some 42%Z) (script_seed 0)).1
    = Ok s ∧
    cashout_count s = 1%Z ∧
    0 <= probability_cashout s <= 1 ∧
    (0 ≤ cashout_count s ≤ 6)%Z ∧
    ending_balance_worst s <= ending_balance_p10 s ∧
    ending_balance_p90 s <= ending_balance_best s ∧
    ((0 < cashout_count s)%Z →
     ∃ lo avg hi,
       min_cashout_day s = Some lo ∧ avg_cashout_day s = Some avg ∧
       max_cashout_day s = Some hi ∧ inject_Z lo <= avg <= inject_Z hi) ∧
    (cashout_count s = 0%Z →
     min_cashout_day s = None ∧ avg_cashout_day s = None ∧
     max_cashout_day s = None).
Proof.
  eexists. split; [vm_compute; reflexivity|]. split; [reflexivity|].
  apply (summary_invariants iso_strptime script_seed script_random
           thin_transactions 6 8 30 (1 # 10) (5 # 100) (Some 42%Z) (script_seed 0));
    [lia | vm_compute; reflexivity].
Defined.

(** A negative number of simulations gives the all-zero summary. *)
Lemma no_simulations_summary_witness :
  ∃ s,
    run_monte_carlo_simulation iso_strptime script_seed script_random
      sample_transactions (-3) 60 30 (1 # 10) (5 # 100) (Some 42%Z) (script_seed 0)
    = (Ok s, script_seed 0) ∧
    simulations s = (-3)%Z ∧
    probability_cashout s == 0 ∧ cashout_count s = 0%Z ∧
    ending_balance_worst s == 0 ∧ ending_balance_p10 s == 0 ∧
    ending_balance_median s == 0 ∧ ending_balance_p90 s == 0 ∧
    ending_balance_best s == 0 ∧
    avg_cashout_day s = None ∧ min_cashout_day s = None ∧
    max_cashout_day s = None.
Proof.
  apply (no_simulations_summary iso_strptime script_seed script_random
           sample_transactions (-3) 60 30 (1 # 10) (5 # 100) (Some 42%Z)
           (script_seed 0)).
  lia.
Defined.

(** [simulations = 0] is not rejected: the call returns a summary. *)
Lemma run_monte_carlo_simulation_accepts_zero :
  (0 ≤ 0)%Z ∧
  returns (run_monte_carlo_simulation iso_strptime script_seed script_random
             sample_transactions 0 60 30 (1 # 10) (5 # 100) (Some 42%Z)
             (script_seed 0)).1 ∧
  ¬ raises (run_monte_carlo_simulation iso_strptime script_seed script_random
              sample_transactions 0 60 30 (1 # 10) (5 # 100) (Some 42%Z)
              (script_seed 0)).1.
Proof.
  split; [lia|]. split.
  - eexists. vm_compute. reflexivity.
  - intros [e He]. vm_compute in He. discriminate.
Qed.

(** Both references of the worked store are live. *)
Lemma two_objects_present l : l ∈ [0; 1]%nat → is_Some (two_objects !! l).
Proof.
  rewrite !elem_of_cons, elem_of_nil. intros [->|[->|[]]]; vm_compute; eauto.
Qed.

(** The optimistic scenario on the store with one sale and one bill. *)
Lemma apply_scenario_modifiers_copies_witness :
  ∃ adjusted σ',
    apply_scenario_modifiers [0; 1]%nat "optimistic" two_objects = (Ok adjusted, σ') ∧
    length adjusted = 2%nat ∧
    (∀ i l, [0; 1]%nat !! i = Some l →
       ∃ l' d d',
         adjusted !! i = Some l' ∧ two_objects !! l = Some d ∧ σ' !! l' = Some d' ∧
         (l' ∉ dom two_objects) ∧
         date d' = date d ∧ type d' = type d ∧
         amount d' == amount d * scenario_factor "optimistic" (type d)) ∧
    (∀ l, l ∈ dom two_objects → σ' !! l = two_objects !! l).
Proof.
  apply (apply_scenario_modifiers_copies two_objects [0; 1]%nat "optimistic").
  - apply list_elem_of_lookup. by exists 1%nat.
  - apply two_objects_present.
Defined.

(** A name that is no scenario, on the same store. *)
Lemma apply_scenario_modifiers_unknown_witness :
  ∃ adjusted σ',
    apply_scenario_modifiers [0; 1]%nat "aggressive" two_objects = (Ok adjusted, σ') ∧
    length adjusted = 2%nat ∧
    (∀ i l, [0; 1]%nat !! i = Some l →
       ∃ l' d, adjusted !! i = Some l' ∧ two_objects !! l = Some d ∧ σ' !! l' = Some d) ∧
    (∀ l, l ∈ dom two_objects → σ' !! l = two_objects !! l).
Proof.
  apply (apply_scenario_modifiers_unknown two_objects [0; 1]%nat "aggressive").
  - discriminate.
  - discriminate.
  - apply two_objects_present.
Defined.

(** The optimistic copies are two new objects, worth 1150 and 190; the
    sale and the bill they were made from still read 1000 and 200. *)
Lemma optimistic_amounts :
  ∃ σ',
    apply_scenario_modifiers [0; 1]%nat "optimistic" two_objects
    = (Ok [2; 3]%nat, σ') ∧
    amount (σ' !!! 2%nat) == 1150 ∧ amount (σ' !!! 3%nat) == 190 ∧
    amount (σ' !!! 0%nat) == 1000 ∧ amount (σ' !!! 1%nat) == 200.
Proof.
  eexists. split; [vm_compute; reflexivity|]. by vm_compute.
Qed.

(** * Further properties *)

(** ** The cash flow as sums *)

Section CashFlowSums.
Local Open Scope Q_scope.


Lemma kind_total_cons kind tx l :
  kind_total kind (tx :: l)
  == (if bool_decide (type tx = kind) then amount tx else 0) + kind_total kind l.
Proof.
  unfold kind_total. rewrite filter_cons.
  case_bool_decide as H.
  - rewrite decide_True by done. simpl. reflexivity.
  - rewrite decide_False by done. ring.
Qed.

Lemma kind_total_app kind l1 l2 :
  kind_total kind (l1 ++ l2) == kind_total kind l1 + kind_total kind l2.
Proof.
  induction l1 as [|tx l1 IH]; simpl.
  - unfold kind_total at 2. simpl. ring.
  - rewrite !kind_total_cons, IH. ring.
Qed.

(** The two accumulators of the loop, from any start. *)
Lemma cash_flow_loop l : ∀ inc exp,
  let r := foldl (λ '(inc, exp) tx,
                    if is_income tx then (inc + amount tx, exp)
                    else if is_expense tx then (inc, exp + amount tx)
                    else (inc, exp))
                 (inc, exp) l in
  r.1 == inc + kind_total "income" l ∧ r.2 == exp + kind_total "expense" l.
Proof.
  induction l as [|tx l IH]; intros inc exp.
  - simpl. unfold kind_total. simpl. split; ring.
  - cbn [foldl]. unfold is_income, is_expense.
    rewrite !kind_total_cons.
    destruct (decide (type tx = "income")) as [Hi|Hi].
    + rewrite (bool_decide_true (type tx = "income")) by done.
      rewrite (bool_decide_false (type tx = "expense")) by congruence.
      destruct (IH (inc + amount tx) exp) as [H1 H2].
      split; [rewrite H1|rewrite H2]; ring.
    + rewrite (bool_decide_false (type tx = "income")) by done.
      case_bool_decide.
      * destruct (IH inc (exp + amount tx)) as [H1 H2].
        split; [rewrite H1|rewrite H2]; ring.
      * destruct (IH inc exp) as [H1 H2].
        split; [rewrite H1|rewrite H2]; ring.
Qed.

Lemma calculate_cash_flow_fields l :
  total_income (calculate_cash_flow l) == kind_total "income" l ∧
  total_expense (calculate_cash_flow l) == kind_total "expense" l ∧
  current_balance (calculate_cash_flow l)
  == kind_total "income" l - kind_total "expense" l.
Proof.
  unfold calculate_cash_flow.
  pose proof (cash_flow_loop l 0 0) as [H1 H2]. cbn zeta in H1, H2.
  destruct (foldl _ _ l) as [inc exp]. cbn [fst snd] in *.
  cbn [total_income total_expense current_balance].
  rewrite H1, H2. split_and!; ring.
Qed.



(** X2. calculate_cash_flow ignores every transaction whose type is
    neither exactly 'income' nor exactly 'expense': removing those
    transactions from the input changes nothing in the result. *)
Theorem calculate_cash_flow_skips_other_kinds l :
  calculate_cash_flow
    (filter (λ tx, type tx = "income" ∨ type tx = "expense") l)
  = calculate_cash_flow l.
Proof.
  unfold calculate_cash_flow.
  generalize (0, 0). induction l as [|tx l IH]; intros acc; [done|].
  rewrite filter_cons. cbn [foldl].
  destruct (decide (type tx = "income" ∨ type tx = "expense")) as [H|H].
  - cbn [foldl]. apply IH.
  - rewrite IH. destruct acc as [inc exp]. unfold is_income, is_expense.
    rewrite !bool_decide_false by tauto. done.
Qed.
End CashFlowSums.

(** ** The burn rate: errors, edges and bounds *)

Section BurnRateEdges.
Local Open Scope Q_scope.
Variable strptime : string → option Z.

Lemma mapM_parse_date_fails transactions :
  Exists (λ tx, strptime (date tx) = None) transactions →
  mapM (parse_date strptime) transactions = Raise ValueError.
Proof.
  induction transactions as [|tx transactions IH]; intros H; [by apply Exists_nil in H|].
  cbn [mapM].
  destruct (strptime (date tx)) as [d|] eqn:E.
  - assert (parse_date strptime tx = Ok (tx, d)) as ->
      by (unfold parse_date; by rewrite E).
    cbn [mbind result_bind]. rewrite IH; [done|].
    apply Exists_cons in H as [H|H]; [congruence|done].
  - assert (parse_date strptime tx = Raise ValueError) as ->
      by (unfold parse_date; by rewrite E).
    done.
Qed.

Lemma estimate_burn_rate_ValueError transactions window_days :
  Exists (λ tx, strptime (date tx) = None) transactions →
  estimate_burn_rate strptime transactions window_days = Raise ValueError.
Proof.
  intros H. unfold estimate_burn_rate.
  destruct transactions as [|tx transactions]; [by apply Exists_nil in H|].
  by rewrite mapM_parse_date_fails.
Qed.

Lemma estimate_burn_rate_ZeroDivisionError transactions :
  transactions ≠ [] →
  Forall (λ tx, is_Some (strptime (date tx))) transactions →
  estimate_burn_rate strptime transactions 0 = Raise ZeroDivisionError.
Proof.
  intros Hne [dates Hd]%parsed_dates. unfold estimate_burn_rate.
  destruct transactions as [|tx transactions]; [done|].
  rewrite (mapM_parse_date _ _ _ Hd). done.
Qed.









End BurnRateEdges.

(** ** Rounding, the runway and the tiers *)

Section Runway.
Local Open Scope Q_scope.

Lemma round_half_even_error x :
  inject_Z (round_half_even x) - x <= 1 # 2 ∧
  x - inject_Z (round_half_even x) <= 1 # 2.
Proof.
  unfold round_half_even.
  pose proof (Qfloor_le x) as Hlo. pose proof (Qlt_floor x) as Hhi.
  rewrite inject_Z_plus in Hhi. change (inject_Z 1) with 1 in Hhi.
  destruct (x - inject_Z (Qfloor x) ?= 1 # 2) eqn:C.
  - apply Qeq_alt in C. destruct (Z.even (Qfloor x));
      rewrite ?inject_Z_plus; change (inject_Z 1) with 1; lra.
  - apply Qlt_alt in C. lra.
  - apply Qgt_alt in C. rewrite inject_Z_plus. change (inject_Z 1) with 1. lra.
Qed.


Lemma inject_Z_pred k : inject_Z (k - 1) == inject_Z k - 1.
Proof. unfold Z.sub. rewrite inject_Z_plus, inject_Z_opp. reflexivity. Qed.


End Runway.

(** ** The runway and the risk of a ledger *)

Section Risk.
Local Open Scope Q_scope.



End Risk.

Section AnalyzeRisk.
Local Open Scope Q_scope.
Variable strptime : string → option Z.

End AnalyzeRisk.

(** ** The income a run expects each day *)

Section IncomePattern.
Local Open Scope Q_scope.
Variable strptime : string → option Z.





End IncomePattern.

(** ** More on one run of the projection *)

Section ProjectionMore.
Local Open Scope Q_scope.
Variable strptime : string → option Z.
Context {rng : Type}.
Variable random_seed : Z → rng.
Variable random_random : rng → Q * rng.

(** What a run on a non-empty ledger returns, in terms of its setup. *)
Lemma project_cash_flow_run
  transactions projection_days window_days income_volatility burn_volatility
  seed g su :
  transactions ≠ [] →
  run_setup strptime transactions window_days income_volatility burn_volatility
  = Ok su →
  let g0 := match seed with Some s => random_seed s | None => g end in
  let b0 := current_balance (calculate_cash_flow transactions) in
  let n := Z.to_nat projection_days in
  ∃ cashout,
    project_cash_flow strptime random_seed random_random transactions
      projection_days window_days income_volatility burn_volatility seed g
    = (Ok ((λ k, {| day := Z.of_nat k;
                    projected_balance :=
                      round_nd (balance_after random_random su g0 b0 k) 2 |})
             <$> seq 1 n, cashout),
       (Nat.iter n (day_balance random_random su) (g0, b0)).1) ∧
    first_crossing (balance_after random_random su g0 b0) n cashout.
Proof.
  intros Hne Hsu g0 b0 n. unfold project_cash_flow. fold g0.
  destruct transactions as [|tx transactions]; [done|].
  rewrite Hsu.
  assert (py_range 1 (projection_days + 1) = py_range 1 (1 + Z.of_nat n)) as ->
    by (unfold py_range; do 2 f_equal; lia).
  destruct (loop_after random_random su g0 b0 n) as (Hst & Hproj & Hcash).
  fold b0. eexists. split; [|exact Hcash].
  rewrite Hproj, <- Hst. done.
Qed.

Lemma recorded_fmap_seq (f : nat → Q) (n k : nat) :
  (1 ≤ k ≤ n)%nat →
  recorded ((λ k, {| day := Z.of_nat k; projected_balance := f k |}) <$> seq 1 n) k
  = f k.
Proof.
  intros Hk. unfold recorded.
  rewrite list_lookup_fmap, lookup_seq_lt by lia. cbn.
  f_equal. lia.
Qed.

Lemma recorded_out_of_range (points : list ProjectionPoint) (k : nat) :
  (length points < k)%nat → recorded points k = 0.
Proof.
  intros Hk. unfold recorded. by rewrite lookup_ge_None_2 by lia.
Qed.

(** X10. In the result of project_cash_flow, a cashout day lies in
    1..projection_days, the balance recorded for it is <= 0 and every
    balance recorded for an earlier day is >= 0; without a cashout day no
    recorded balance is negative. *)
Theorem recorded_balance_around_cashout
  transactions projection_days window_days income_volatility burn_volatility
  seed g points cashout g' :
  project_cash_flow strptime random_seed random_random transactions
    projection_days window_days income_volatility burn_volatility seed g
  = (Ok (points, cashout), g') →
  match cashout with
  | Some c =>
      (1 ≤ c ≤ projection_days)%Z ∧
      recorded points (Z.to_nat c) <= 0 ∧
      ∀ j : nat, (1 ≤ j < Z.to_nat c)%nat → 0 <= recorded points j
  | None => ∀ j : nat, 0 <= recorded points j
  end.
Proof.
  intros Hrun.
  destruct (decide (transactions = [])) as [->|Hne].
  { cbn in Hrun. injection Hrun as <- <- _. intros j. by compute. }
  destruct (run_setup strptime transactions window_days income_volatility
              burn_volatility) as [su|e] eqn:Hsu.
  2:{ unfold project_cash_flow in Hrun. rewrite Hsu in Hrun.
      by destruct transactions. }
  destruct (project_cash_flow_run transactions projection_days window_days
              income_volatility burn_volatility seed g su Hne Hsu)
    as (cashout' & Hrun' & Hcash).
  rewrite Hrun in Hrun'. injection Hrun' as -> <- _.
  set (bal := balance_after random_random su _ _) in *.
  set (n := Z.to_nat projection_days) in *.
  assert (Hzero : round_nd 0 2 == 0) by apply (round_nd_inject 0).
  destruct cashout as [c|]; simpl in Hcash.
  - destruct Hcash as (k & -> & Hk & Hle & Hfirst). split; [lia|].
    rewrite Nat2Z.id. split.
    + rewrite recorded_fmap_seq by done. rewrite <- Hzero. by apply round_nd_mono.
    + intros j Hj. rewrite recorded_fmap_seq by lia. rewrite <- Hzero.
      apply round_nd_mono, Qlt_le_weak, Qnot_le_lt, Hfirst. lia.
  - intros j. destruct (decide (1 ≤ j ≤ n)%nat) as [Hj|Hj].
    + rewrite recorded_fmap_seq by done. rewrite <- Hzero.
      by apply round_nd_mono, Qlt_le_weak, Qnot_le_lt, Hcash.
    + destruct (decide (j = 0%nat)) as [->|].
      * unfold recorded. simpl.
        destruct (_ !! 0%nat) as [p|] eqn:E; simpl; [|apply Qle_refl].
        apply list_lookup_fmap_Some in E as (k & -> & Hk). simpl.
        apply lookup_seq in Hk as [-> Hn].
        rewrite <- Hzero.
        apply round_nd_mono, Qlt_le_weak, Qnot_le_lt, Hcash. lia.
      * rewrite recorded_out_of_range; [apply Qle_refl|].
        rewrite length_fmap, length_seq. lia.
Qed.
End ProjectionMore.

(** ** Runs without volatility, and the draws of a run *)

Section Steady.
Local Open Scope Q_scope.
Variable strptime : string → option Z.
Context {rng : Type}.
Variable random_seed : Z → rng.
Variable random_random : rng → Q * rng.

Lemma day_balance_steady su g b :
  income_vol su = 0 → burn_vol su = 0 →
  (day_balance random_random su (g, b)).2 == b + daily_net su.
Proof.
  intros Hi Hb. unfold day_balance, daily_net, random_uniform. rewrite Hi, Hb.
  case_bool_decide.
  - destruct (random_random g) as [r1 g1]. destruct (random_random g1) as [r2 g2].
    cbn [snd]. ring.
  - destruct (random_random g) as [r1 g1]. cbn [snd]. ring.
Qed.

Lemma balance_after_steady su g b k :
  income_vol su = 0 → burn_vol su = 0 →
  balance_after random_random su g b k
  == b + inject_Z (Z.of_nat k) * daily_net su.
Proof.
  intros Hi Hb. induction k as [|k IH].
  - unfold balance_after. simpl. ring.
  - unfold balance_after in *. rewrite Nat.iter_succ.
    destruct (Nat.iter k _ _) as [gk bk]. cbn [snd] in IH.
    rewrite day_balance_steady by done. rewrite IH.
    rewrite Nat2Z.inj_succ, <- Z.add_1_r, inject_Z_plus.
    change (inject_Z 1) with 1. ring.
Qed.

Lemma day_balance_draws su g b :
  (day_balance random_random su (g, b)).1
  = after_draws random_random (draws_per_day su) g.
Proof.
  unfold day_balance, draws_per_day, random_uniform, after_draws.
  case_bool_decide; rewrite ?Nat.iter_succ; cbn [Nat.iter nat_rect].
  - destruct (random_random g) as [r1 g1]. cbn [snd].
    by destruct (random_random g1) as [r2 g2].
  - by destruct (random_random g) as [r1 g1].
Qed.

Lemma after_draws_add (m n : nat) (g : rng) :
  after_draws random_random (m + n) g
  = after_draws random_random m (after_draws random_random n g).
Proof. unfold after_draws. by rewrite Nat.iter_add. Qed.

Lemma iter_day_balance_draws su g b (n : nat) :
  (Nat.iter n (day_balance random_random su) (g, b)).1
  = after_draws random_random (draws_per_day su * n) g.
Proof.
  induction n as [|n IH]; [by rewrite Nat.mul_0_r|].
  rewrite Nat.iter_succ. destruct (Nat.iter n _ _) as [gn bn]. cbn [fst] in IH.
  rewrite day_balance_draws, IH, <- after_draws_add. f_equal. lia.
Qed.

Lemma first_crossing_ext (bal bal' : nat → Q) n c :
  (∀ k, bal k == bal' k) → first_crossing bal n c → first_crossing bal' n c.
Proof.
  intros E.
  assert (Hiff : ∀ k, bal k <= 0 ↔ bal' k <= 0).
  { intros k. apply Qle_comp; [apply E|reflexivity]. }
  destruct c as [c|]; unfold first_crossing.
  - intros (k & -> & Hk & Hle & Hfirst). exists k.
    split; [done|]. split; [done|]. split.
    + by apply Hiff.
    + intros j Hj Hc. apply (Hfirst j Hj). by apply Hiff.
  - intros H j Hj Hc. apply (H j Hj). by apply Hiff.
Qed.

Lemma steady_run
  transactions projection_days window_days seed g su :
  transactions ≠ [] →
  run_setup strptime transactions window_days 0 0 = Ok su →
  let b0 := current_balance (calculate_cash_flow transactions) in
  let line (k : nat) := b0 + inject_Z (Z.of_nat k) * daily_net su in
  ∃ cashout g',
    project_cash_flow strptime random_seed random_random transactions
      projection_days window_days 0 0 seed g
    = (Ok ((λ k, {| day := Z.of_nat k;
                    projected_balance := round_nd (line k) 2 |})
             <$> seq 1 (Z.to_nat projection_days), cashout), g') ∧
    first_crossing line (Z.to_nat projection_days) cashout.
Proof.
  intros Hne Hsu b0 line.
  assert (Hvol : income_vol su = 0 ∧ burn_vol su = 0).
  { unfold run_setup in Hsu.
    apply bind_Ok in Hsu as (burn & _ & Hsu).
    by apply bind_Ok in Hsu as (pattern & _ & [= <-]). }
  destruct Hvol as [Hi Hb].
  destruct (project_cash_flow_run strptime random_seed random_random
              transactions projection_days window_days 0 0 seed g su Hne Hsu)
    as (cashout & Hrun & Hcash).
  exists cashout. eexists. split.
  - rewrite Hrun. do 3 f_equal.
    apply list_fmap_ext. intros i k _. f_equal.
    apply round_nd_proper, balance_after_steady; done.
  - eapply first_crossing_ext; [|exact Hcash].
    intros k. apply balance_after_steady; done.
Qed.


(** X12. A run of project_cash_flow on a non-empty ledger takes exactly
    two draws from the generator per projected day when income_frequency >
    0 and one otherwise, starting from the seeded state when a seed is
    given and from the current state of the shared generator when not. *)
Theorem project_cash_flow_draws
  transactions projection_days window_days income_volatility burn_volatility
  seed g su :
  transactions ≠ [] →
  run_setup strptime transactions window_days income_volatility burn_volatility
  = Ok su →
  (project_cash_flow strptime random_seed random_random transactions
     projection_days window_days income_volatility burn_volatility seed g).2
  = after_draws random_random
      (draws_per_day su * Z.to_nat projection_days)
      match seed with Some s => random_seed s | None => g end.
Proof.
  intros Hne Hsu.
  destruct (project_cash_flow_run strptime random_seed random_random
              transactions projection_days window_days income_volatility
              burn_volatility seed g su Hne Hsu) as (cashout & -> & _).
  cbn [snd]. apply iter_day_balance_draws.
Qed.

Lemma project_cash_flow_ValueError
  transactions projection_days window_days income_volatility burn_volatility
  seed g :
  transactions ≠ [] →
  Exists (λ tx, strptime (date tx) = None) transactions →
  project_cash_flow strptime random_seed random_random transactions
    projection_days window_days income_volatility burn_volatility seed g
  = (Raise ValueError, match seed with Some s => random_seed s | None => g end).
Proof.
  intros Hne Hbad. unfold project_cash_flow, run_setup.
  rewrite (estimate_burn_rate_ValueError _ _ _ Hbad).
  by destruct transactions.
Qed.

Lemma project_cash_flow_ZeroDivisionError
  transactions projection_days income_volatility burn_volatility seed g :
  transactions ≠ [] →
  Forall (λ tx, is_Some (strptime (date tx))) transactions →
  project_cash_flow strptime random_seed random_random transactions
    projection_days 0 income_volatility burn_volatility seed g
  = (Raise ZeroDivisionError,
     match seed with Some s => random_seed s | None => g end).
Proof.
  intros Hne Hd. unfold project_cash_flow, run_setup.
  rewrite (estimate_burn_rate_ZeroDivisionError _ _ Hne Hd).
  by destruct transactions.
Qed.

(** X13. On a non-empty ledger project_cash_flow raises ValueError when a
    date does not parse and ZeroDivisionError when window_days is 0; in
    both cases the shared generator has already been reseeded when a seed
    was given. *)
Theorem project_cash_flow_raises
  transactions projection_days window_days income_volatility burn_volatility
  seed g :
  transactions ≠ [] →
  let g0 := match seed with Some s => random_seed s | None => g end in
  (Exists (λ tx, strptime (date tx) = None) transactions →
   project_cash_flow strptime random_seed random_random transactions
     projection_days window_days income_volatility burn_volatility seed g
   = (Raise ValueError, g0)) ∧
  (Forall (λ tx, is_Some (strptime (date tx))) transactions →
   window_days = 0%Z →
   project_cash_flow strptime random_seed random_random transactions
     projection_days window_days income_volatility burn_volatility seed g
   = (Raise ZeroDivisionError, g0)).
Proof.
  intros Hne g0. split.
  - by apply project_cash_flow_ValueError.
  - intros Hd ->. by apply project_cash_flow_ZeroDivisionError.
Qed.
End Steady.

(** ** More on the orchestrator *)

Section OrchestratorMore.
Local Open Scope Q_scope.
Variable strptime : string → option Z.
Context {rng : Type}.
Variable random_seed : Z → rng.
Variable random_random : rng → Q * rng.

(** Without volatility every run gives the same result. *)
Lemma steady_result
  transactions projection_days window_days seed g seed' g' :
  (project_cash_flow strptime random_seed random_random transactions
     projection_days window_days 0 0 seed g).1
  = (project_cash_flow strptime random_seed random_random transactions
       projection_days window_days 0 0 seed' g').1.
Proof.
  destruct (decide (transactions = [])) as [->|Hne]; [done|].
  destruct (run_setup strptime transactions window_days 0 0) as [su|e] eqn:Hsu.
  - destruct (steady_run strptime random_seed random_random transactions
                projection_days window_days seed g su Hne Hsu)
      as (c1 & g1 & -> & H1).
    destruct (steady_run strptime random_seed random_random transactions
                projection_days window_days seed' g' su Hne Hsu)
      as (c2 & g2 & -> & H2).
    cbn [fst]. do 2 f_equal.
    destruct c1 as [c1|].
    + symmetry. by apply (first_crossing_extend _ _ _ c1 (Nat.le_refl _) H1).
    + destruct c2 as [c2|]; [|done].
      by apply (first_crossing_extend _ _ _ c2 (Nat.le_refl _) H2).
  - unfold project_cash_flow. rewrite Hsu. by destruct transactions.
Qed.

Lemma simulate_steady
  transactions projection_days window_days seed indices points cashout :
  (project_cash_flow strptime random_seed random_random transactions
     projection_days window_days 0 0 None (random_seed 0)).1
  = Ok (points, cashout) →
  ∀ endings cashouts g,
  ∃ g',
    simulate strptime random_seed random_random transactions
      projection_days window_days 0 0 seed indices endings cashouts g
    = (Ok (endings
           ++ replicate (length indices)
                match last points with
                | Some point => projected_balance point
                | None => 0
                end,
           cashouts
           ++ match cashout with
              | Some c => replicate (length indices) c
              | None => []
              end), g').
Proof.
  intros Hrun. induction indices as [|i indices IH]; intros endings cashouts g.
  - exists g. cbn. rewrite app_nil_r. by destruct cashout; rewrite ?app_nil_r.
  - cbn [simulate].
    pose proof (steady_result transactions projection_days window_days
                  (sim_seed seed i) g None (random_seed 0)) as Hsame.
    rewrite Hrun in Hsame.
    destruct (project_cash_flow _ _ _ _ _ _ _ _ (sim_seed seed i) g) as [r g1].
    cbn [fst] in Hsame. subst r. rewrite ending_balance_last.
    destruct (IH (endings ++ [match last points with
                              | Some point => projected_balance point
                              | None => 0
                              end])
                 (cashouts ++ match cashout with Some c => [c] | None => [] end)
                 g1) as [g' ->].
    exists g'. do 2 f_equal. cbn [length replicate].
    f_equal; rewrite <- app_assoc; [done|].
    by destruct cashout.
Qed.

Lemma round_nd_proper_eq x y n : x == y → round_nd x n == round_nd y n.
Proof. intros E. by rewrite (round_nd_proper x y n E). Qed.

(** X14. With income_volatility = 0 and burn_volatility = 0 every
    simulated run is the same, so a summary that
    run_monte_carlo_simulation returns has ending_balance_worst = p10 =
    median = p90 = best, and its probability_cashout is either 0
    (cashout_count 0) or 1 (cashout_count = simulations), never in
    between. *)
Theorem run_monte_carlo_simulation_steady
  transactions simulations projection_days window_days seed g s :
  (run_monte_carlo_simulation strptime random_seed random_random transactions
     simulations projection_days window_days 0 0 seed g).1 = Ok s →
  ending_balance_worst s == ending_balance_p10 s ∧
  ending_balance_p10 s == ending_balance_median s ∧
  ending_balance_median s == ending_balance_p90 s ∧
  ending_balance_p90 s == ending_balance_best s ∧
  ((probability_cashout s == 0 ∧ cashout_count s = 0%Z) ∨
   (probability_cashout s == 1 ∧ cashout_count s = simulations)).
Proof.
  unfold run_monte_carlo_simulation. intros Hs.
  set (n := Z.to_nat simulations).
  assert (Hsim : ∃ e cs g',
    simulate strptime random_seed random_random transactions
      projection_days window_days 0 0 seed (py_range 0 simulations) [] [] g
    = (Ok (replicate n e, cs), g') ∧
    (cs = [] ∨ ∃ c, cs = replicate n c)).
  { destruct (project_cash_flow strptime random_seed random_random transactions
                projection_days window_days 0 0 None (random_seed 0))
      as [r0 g0] eqn:Hrun0.
    destruct r0 as [[points cashout]|e].
    - destruct (simulate_steady transactions projection_days window_days seed
                  (py_range 0 simulations) points cashout
                  ltac:(by rewrite Hrun0) [] [] g) as [g' Hg'].
      rewrite py_range_length, Z.sub_0_r in Hg'. fold n in Hg'.
      eexists _, _, g'. split; [exact Hg'|].
      destruct cashout as [c|]; [right; by exists c|by left].
    - destruct (py_range 0 simulations) as [|i indices] eqn:Hidx.
      + assert (n = 0%nat) as ->.
        { apply (f_equal length) in Hidx.
          rewrite py_range_length, Z.sub_0_r in Hidx. done. }
        exists 0, [], g. split; [done|by left].
      + exfalso. cbn [simulate] in Hs.
        pose proof (steady_result transactions projection_days window_days
                      (sim_seed seed i) g None (random_seed 0)) as Hsame.
        rewrite Hrun0 in Hsame.
        destruct (project_cash_flow _ _ _ _ _ _ _ _ (sim_seed seed i) g) as [r g1].
        cbn [fst] in Hsame. subst r. done. }
  destruct Hsim as (e & cs & g' & Hsim & Hcs). rewrite Hsim in Hs. cbn [fst] in Hs.
  apply summarize_inv in Hs
    as (prob & worst & median & best & p10 & p90 & avg & Hprob & Hworst & Hmedian
        & Hbest & Hp10 & Hp90 & _ & ->).
  cbn [ending_balance_worst ending_balance_p10 ending_balance_median
       ending_balance_p90 ending_balance_best probability_cashout cashout_count].
  rewrite sorted_replicate in *. rewrite percentile_replicate in *.
  rewrite length_replicate in *.
  assert (Hzero : round_nd 0 2 == 0) by apply (round_nd_inject 0).
  assert (Hstats : worst == round_nd p10 2 ∧ p10 = median ∧ median = p90 ∧
                   round_nd p90 2 == best).
  { destruct (decide (n = 0%nat)) as [Hn|Hn].
    - rewrite !(bool_decide_true (n = 0%nat)) in * by done. simplify_eq.
      by rewrite Hzero.
    - rewrite !(bool_decide_false (n = 0%nat)) in * by done.
      rewrite !py_index_replicate in * by lia. cbn in Hworst, Hbest. simplify_eq.
      split_and!; reflexivity. }
  destruct Hstats as (Hw & -> & -> & Hb).
  split; [done|]. split; [reflexivity|]. split; [reflexivity|]. split; [done|].
  assert (Hone : round_nd 1 4 == 1) by apply (round_nd_inject 1).
  destruct (decide (cs = [])) as [->|Hne].
  - left. split; [|done]. destruct (decide (0 < simulations)%Z) as [Hpos|Hpos].
    + rewrite bool_decide_true in Hprob by done.
      apply py_div_inv in Hprob as [Hnz ->].
      apply round_nd_zero. cbn [length]. field. done.
    + rewrite bool_decide_false in Hprob by done.
      injection Hprob as <-. by apply round_nd_zero.
  - destruct Hcs as [->|[c ->]]; [done|]. rewrite length_replicate in *.
    assert (Hn : n ≠ 0%nat) by (by intros Hn; rewrite Hn in Hne).
    rewrite bool_decide_true in Hprob by lia.
    right. split; [|lia]. apply py_div_inv in Hprob as [Hnz ->].
    rewrite <- Hone. apply round_nd_proper_eq.
    unfold n. rewrite Z2Nat.id by lia. field. done.
Qed.

Lemma py_range_first (simulations : Z) :
  (1 ≤ simulations)%Z →
  ∃ indices, py_range 0 simulations = 0%Z :: indices.
Proof.
  intros Hs. unfold py_range.
  destruct (Z.to_nat (simulations - 0)) as [|n] eqn:E; [lia|].
  by eexists.
Qed.

(** X15. With simulations >= 1 and a non-empty ledger,
    run_monte_carlo_simulation catches nothing: it raises ValueError when
    a date does not parse and ZeroDivisionError when window_days is 0,
    both in its first run, leaving the shared generator seeded with seed
    (run 0's seed) when a seed was given and untouched when not. *)
Theorem run_monte_carlo_simulation_raises
  transactions simulations projection_days window_days
  income_volatility burn_volatility seed g :
  (1 ≤ simulations)%Z → transactions ≠ [] →
  let g0 := match seed with Some s => random_seed s | None => g end in
  (Exists (λ tx, strptime (date tx) = None) transactions →
   run_monte_carlo_simulation strptime random_seed random_random transactions
     simulations projection_days window_days income_volatility burn_volatility
     seed g = (Raise ValueError, g0)) ∧
  (Forall (λ tx, is_Some (strptime (date tx))) transactions →
   window_days = 0%Z →
   run_monte_carlo_simulation strptime random_seed random_random transactions
     simulations projection_days window_days income_volatility burn_volatility
     seed g = (Raise ZeroDivisionError, g0)).
Proof.
  intros Hs Hne g0. unfold run_monte_carlo_simulation.
  destruct (py_range_first simulations Hs) as [indices ->].
  assert (Hg0 : match sim_seed seed 0 with
                | Some s => random_seed s
                | None => g
                end = g0).
  { destruct seed as [s|]; [|done]. cbn. by rewrite Z.add_0_r. }
  split.
  - intros Hbad. cbn [simulate].
    rewrite (project_cash_flow_ValueError strptime random_seed random_random
               _ _ _ _ _ _ _ Hne Hbad).
    by rewrite Hg0.
  - intros Hd ->. cbn [simulate].
    rewrite (project_cash_flow_ZeroDivisionError strptime random_seed
               random_random _ _ _ _ _ _ Hne Hd).
    by rewrite Hg0.
Qed.

(** The cashout day of a run lies within the projection. *)
Lemma cashout_day_range
  transactions projection_days window_days income_volatility burn_volatility
  seed g points c g' :
  project_cash_flow strptime random_seed random_random transactions
    projection_days window_days income_volatility burn_volatility seed g
  = (Ok (points, Some c), g') →
  (1 ≤ c ≤ projection_days)%Z.
Proof.
  intros Hrun.
  destruct (decide (transactions = [])) as [->|Hne]; [done|].
  destruct (run_setup strptime transactions window_days income_volatility
              burn_volatility) as [su|e] eqn:Hsu.
  2:{ unfold project_cash_flow in Hrun. rewrite Hsu in Hrun.
      by destruct transactions. }
  destruct (project_cash_flow_run strptime random_seed random_random
              transactions projection_days window_days
              income_volatility burn_volatility seed g su Hne Hsu)
    as (cashout' & Hrun' & Hcash).
  rewrite Hrun in Hrun'. injection Hrun' as _ <- _.
  destruct Hcash as (k & -> & Hk & _). lia.
Qed.

Lemma simulate_cashouts_range
  transactions projection_days window_days income_volatility burn_volatility
  seed indices : ∀ endings cashouts g endings' cashouts' g',
  simulate strptime random_seed random_random transactions
    projection_days window_days income_volatility burn_volatility seed
    indices endings cashouts g = (Ok (endings', cashouts'), g') →
  Forall (λ c, 1 ≤ c ≤ projection_days)%Z cashouts →
  Forall (λ c, 1 ≤ c ≤ projection_days)%Z cashouts'.
Proof.
  induction indices as [|i indices IH]; intros endings cashouts g endings' cashouts' g'.
  - by intros [= <- <- <-].
  - cbn [simulate].
    destruct (project_cash_flow _ _ _ _ _ _ _ _ _ _) as [[[points c]|e] g1] eqn:Hrun;
      [|done].
    rewrite ending_balance_last. intros Hsim Hall.
    apply (IH _ _ _ _ _ _ Hsim). apply Forall_app. split; [done|].
    destruct c as [c|]; [|done]. apply Forall_singleton.
    by eapply cashout_day_range.
Qed.

(** X16. In a summary that run_monte_carlo_simulation returns,
    min_cashout_day and max_cashout_day, when not None, lie in
    1..projection_days, and avg_cashout_day, when not None, lies between 1
    and projection_days. *)
Theorem cashout_days_within_projection
  transactions simulations projection_days window_days
  income_volatility burn_volatility seed g s :
  (run_monte_carlo_simulation strptime random_seed random_random transactions
     simulations projection_days window_days income_volatility burn_volatility
     seed g).1 = Ok s →
  (∀ lo, min_cashout_day s = Some lo → (1 ≤ lo ≤ projection_days)%Z) ∧
  (∀ hi, max_cashout_day s = Some hi → (1 ≤ hi ≤ projection_days)%Z) ∧
  (∀ avg, avg_cashout_day s = Some avg →
          1 <= avg ∧ avg <= inject_Z projection_days).
Proof.
  unfold run_monte_carlo_simulation.
  destruct (simulate _ _ _ _ _ _ _ _ _ _ _ _ _) as [[[endings cashouts]|e] g']
    eqn:Hsim; [|done].
  apply simulate_cashouts_range in Hsim; [|done]. cbn [fst]. intros Hs.
  apply summarize_inv in Hs
    as (prob & worst & median & best & p10 & p90 & avg & _ & _ & _ & _ & _ & _
        & Havg & ->).
  cbn [min_cashout_day max_cashout_day avg_cashout_day].
  destruct cashouts as [|c cashouts];
    [injection Havg as <-; split_and!; by intros ? [=]|].
  rewrite Forall_forall in Hsim.
  destruct (py_min_spec (c :: cashouts) ltac:(done)) as [Hmin _].
  destruct (py_max_spec (c :: cashouts) ltac:(done)) as [Hmax _].
  apply Hsim in Hmin, Hmax.
  split_and!.
  - by intros lo [= <-].
  - by intros hi [= <-].
  - intros a Ha. rewrite Ha in Havg.
    apply bind_Ok in Havg as (q & Hq & [= <-]).
    destruct (average_between (c :: cashouts) q ltac:(done) Hq) as [Hlo Hhi].
    split.
    + apply Qle_trans with (inject_Z (py_min (c :: cashouts))); [|done].
      change 1 with (inject_Z 1). rewrite <- Zle_Qle. lia.
    + apply Qle_trans with (inject_Z (py_max (c :: cashouts))); [done|].
      rewrite <- Zle_Qle. lia.
Qed.
End OrchestratorMore.

(** ** More on the scenario modifier *)

Section ScenarioMore.
Local Open Scope Q_scope.
Implicit Types (σ : gmap nat Transaction) (d : Transaction).

Lemma adjust_transaction_dom scenario σ tx :
  (adjust_transaction scenario σ tx).1 = fresh (dom σ) ∧
  dom (adjust_transaction scenario σ tx).2 = {[fresh (dom σ)]} ∪ dom σ.
Proof.
  unfold adjust_transaction. split; [done|]. cbn [snd].
  repeat case_bool_decide; rewrite ?dom_alter_L, dom_insert_L; done.
Qed.

Lemma adjust_loop_fresh scenario transactions : ∀ acc σ,
  ∃ news σ',
    foldl (adjust_loop scenario) (acc, σ) transactions = (acc ++ news, σ') ∧
    length news = length transactions ∧
    NoDup news ∧
    (∀ l, l ∈ news → l ∉ dom σ) ∧
    dom σ' = dom σ ∪ list_to_set news.
Proof.
  induction transactions as [|tx transactions IH]; intros acc σ.
  - exists [], σ. rewrite app_nil_r. split_and!; try done.
    + constructor.
    + intros l Hl. by apply elem_of_nil in Hl.
    + by rewrite list_to_set_nil, (right_id_L ∅ (∪)).
  - destruct (adjust_transaction_dom scenario σ tx) as [Hnew Hdom].
    destruct (adjust_transaction scenario σ tx) as [new σ1] eqn:Hadj.
    cbn [fst snd] in Hnew, Hdom. subst new.
    assert (Hfresh : fresh (dom σ) ∉ dom σ) by apply is_fresh.
    destruct (IH (acc ++ [fresh (dom σ)]) σ1)
      as (news & σ' & Hfold & Hlen & Hnd & Hout & Hdom').
    assert (Hstep : adjust_loop scenario (acc, σ) tx = (acc ++ [fresh (dom σ)], σ1)).
    { unfold adjust_loop. cbn [fst snd]. by rewrite Hadj. }
    exists (fresh (dom σ) :: news), σ'. cbn [foldl]. rewrite Hstep, Hfold.
    split; [by rewrite <- app_assoc|]. split; [simpl; by rewrite Hlen|].
    split_and!.
    + constructor; [|done]. intros Hin. apply Hout in Hin. apply Hin.
      rewrite Hdom. apply elem_of_union_l. by apply elem_of_singleton.
    + intros l [->|Hin]%elem_of_cons; [done|]. apply Hout in Hin.
      intros Hl. apply Hin. rewrite Hdom. by apply elem_of_union_r.
    + rewrite Hdom', Hdom, list_to_set_cons.
      by rewrite (comm_L (∪) {[fresh (dom σ)]} (dom σ)), (assoc_L (∪)).
Qed.

(** X17. apply_scenario_modifiers never raises on a list of dict
    references and returns one new dict per entry of the input, entries
    listing the same dict twice included: the returned dicts are pairwise
    distinct objects, none of them existed before the call, and the call
    creates exactly len(transactions) objects. *)
Theorem apply_scenario_modifiers_fresh σ transactions scenario :
  ∃ adjusted σ',
    apply_scenario_modifiers transactions scenario σ = (Ok adjusted, σ') ∧
    length adjusted = length transactions ∧
    NoDup adjusted ∧
    (∀ l, l ∈ adjusted → l ∉ dom σ) ∧
    dom σ' = dom σ ∪ list_to_set adjusted ∧
    size σ' = (size σ + length transactions)%nat.
Proof.
  destruct (adjust_loop_fresh scenario transactions [] σ)
    as (news & σ' & Hfold & Hlen & Hnd & Hout & Hdom).
  exists news, σ'. unfold apply_scenario_modifiers. rewrite Hfold. cbn [app].
  split_and!; try done.
  rewrite <- !size_dom, Hdom, size_union.
  2:{ intros l Hl Hin. apply elem_of_list_to_set in Hin. by apply (Hout l). }
  by rewrite size_list_to_set, Hlen.
Qed.

Lemma kind_total_scaled scenario kind (ds ds' : list Transaction) :
  Forall2 (adjusted_copy scenario) ds ds' →
  kind_total kind ds' == scenario_factor scenario kind * kind_total kind ds.
Proof.
  induction 1 as [|d d' ds ds' (Hdate & Htype & Hamount & _) _ IH].
  - unfold kind_total. simpl. ring.
  - rewrite !kind_total_cons, IH, Htype.
    case_bool_decide as Hk; [|ring]. rewrite Hamount, Hk. ring.
Qed.

Lemma adjusted_copies σ transactions scenario :
  (∀ l, l ∈ transactions → is_Some (σ !! l)) →
  ∃ adjusted σ',
    apply_scenario_modifiers transactions scenario σ = (Ok adjusted, σ') ∧
    Forall2 (adjusted_copy scenario) (deref σ transactions) (deref σ' adjusted).
Proof.
  intros Hin.
  destruct (adjust_loop_spec scenario transactions [] σ Hin)
    as (news & σ' & Hfold & Hlen & Hold & Hnews).
  exists news, σ'. unfold apply_scenario_modifiers. rewrite Hfold. cbn [app].
  split; [done|]. unfold deref.
  apply Forall2_same_length_lookup. split; [by rewrite !length_fmap|].
  intros i d d'. rewrite !list_lookup_fmap.
  destruct (transactions !! i) as [l|] eqn:Hi; [|done].
  destruct (Hnews i l Hi) as (l' & d0 & d0' & -> & Hl & Hl' & _ & Hcopy).
  cbn. intros [= <-] [= <-].
  by rewrite (lookup_total_correct _ _ _ Hl), (lookup_total_correct _ _ _ Hl').
Qed.


Lemma kind_total_nonneg kind (ds : list Transaction) :
  Forall (λ d, 0 <= amount d) ds → 0 <= kind_total kind ds.
Proof.
  induction 1 as [|d ds Hd _ IH]; [by compute|].
  rewrite kind_total_cons. case_bool_decide; lra.
Qed.

Lemma scenario_balance_value σ transactions scenario :
  (∀ l, l ∈ transactions → is_Some (σ !! l)) →
  scenario_balance scenario σ transactions
  == scenario_factor scenario "income" * kind_total "income" (deref σ transactions)
     - scenario_factor scenario "expense"
       * kind_total "expense" (deref σ transactions).
Proof.
  intros Hin. unfold scenario_balance.
  destruct (adjusted_copies σ transactions scenario Hin)
    as (adjusted & σ' & -> & Hcopies).
  destruct (calculate_cash_flow_fields (deref σ' adjusted)) as (_ & _ & ->).
  by rewrite !(kind_total_scaled scenario _ _ _ Hcopies).
Qed.

(** X19. For a ledger with non-negative amounts, the current_balance that
    calculate_cash_flow gives after apply_scenario_modifiers is ordered by
    scenario: conservative <= base <= optimistic. *)
Theorem scenario_balance_order σ transactions :
  (∀ l, l ∈ transactions → is_Some (σ !! l)) →
  Forall (λ d, 0 <= amount d) (deref σ transactions) →
  scenario_balance "conservative" σ transactions
  <= scenario_balance "base" σ transactions ∧
  scenario_balance "base" σ transactions
  <= scenario_balance "optimistic" σ transactions.
Proof.
  intros Hin Hpos.
  rewrite !scenario_balance_value by done.
  pose proof (kind_total_nonneg "income" _ Hpos) as Hi.
  pose proof (kind_total_nonneg "expense" _ Hpos) as He.
  set (I := kind_total "income" _) in *. set (E := kind_total "expense" _) in *.
  change (scenario_factor "conservative" "income") with (85 # 100).
  change (scenario_factor "conservative" "expense") with (110 # 100).
  change (scenario_factor "base" "income") with 1.
  change (scenario_factor "base" "expense") with 1.
  change (scenario_factor "optimistic" "income") with (115 # 100).
  change (scenario_factor "optimistic" "expense") with (95 # 100).
  split; lra.
Qed.
End ScenarioMore.

(** ** The API key *)

(** X20. verify_api_key lets a request pass exactly when the x-api-key
    header is present and equal to the configured API_KEY; a missing
    header gives 401 'API key missing', a different key 401
    'Unauthorized', and when the API_KEY environment variable is not set
    every request gets a 401, whatever key it brings. *)
Theorem verify_api_key_passes (API_KEY x_api_key : option string) :
  (verify_api_key API_KEY x_api_key = Pass ()
   ↔ ∃ key, x_api_key = Some key ∧ API_KEY = Some key) ∧
  (x_api_key = None →
   verify_api_key API_KEY x_api_key = HTTPException 401 "API key missing") ∧
  (∀ key, x_api_key = Some key → API_KEY ≠ Some key →
   verify_api_key API_KEY x_api_key = HTTPException 401 "Unauthorized") ∧
  (API_KEY = None → ∃ detail,
   verify_api_key API_KEY x_api_key = HTTPException 401 detail).
Proof.
  unfold verify_api_key. split_and!.
  - split.
    + destruct x_api_key as [key|]; [|done]. case_bool_decide as H; [done|].
      intros _. exists key. split; [done|].
      destruct (decide (Some key = API_KEY)); [done|]. by destruct H.
    + intros (key & -> & ->). by rewrite bool_decide_false by (by intros []).
  - by intros ->.
  - intros key -> Hne. by rewrite bool_decide_true by congruence.
  - intros ->. destruct x_api_key as [key|]; [|by eexists].
    rewrite bool_decide_true by done. by eexists.
Qed.

(** ** The first [project_cash_flow] and the one that replaces it *)

Section Replaced.
Local Open Scope Q_scope.
Variable strptime : string → option Z.
Context {rng : Type}.
Variable random_seed : Z → rng.
Variable random_random : rng → Q * rng.

Lemma day_balance_first_same burn avg freq g b b' :
  b == b' →
  let su := {| daily_burn := burn; avg_income_per_income_day := avg;
               income_frequency := freq; income_vol := 1 # 10;
               burn_vol := 5 # 100 |} in
  (day_balance random_random su (g, b)).1
  = (day_balance_first random_random burn avg freq (g, b')).1 ∧
  (day_balance random_random su (g, b)).2
  == (day_balance_first random_random burn avg freq (g, b')).2.
Proof.
  intros Hb su. unfold day_balance, day_balance_first, random_uniform.
  cbn [income_frequency avg_income_per_income_day daily_burn income_vol burn_vol su].
  case_bool_decide.
  - destruct (random_random g) as [r1 g1]. destruct (random_random g1) as [r2 g2].
    cbn [fst snd]. split; [done|]. rewrite Hb. ring.
  - destruct (random_random g) as [r1 g1].
    cbn [fst snd]. split; [done|]. rewrite Hb. ring.
Qed.

Lemma day_steps_same burn avg freq (st : Run) g b pts d :
  gen st = g → balance st == b → projection st = pts →
  let su := {| daily_burn := burn; avg_income_per_income_day := avg;
               income_frequency := freq; income_vol := 1 # 10;
               burn_vol := 5 # 100 |} in
  let st' := day_step random_random su st d in
  let r := day_step_first random_random burn avg freq (g, b, pts) d in
  gen st' = r.1.1 ∧ balance st' == r.1.2 ∧ projection st' = r.2.
Proof.
  intros Hg Hb Hp su. unfold day_step, day_step_first. cbn [fst snd].
  destruct (day_balance_first_same burn avg freq (gen st) (balance st) b Hb)
    as [H1 H2]. fold su in H1, H2. rewrite Hg in *.
  destruct (day_balance random_random su (g, balance st)) as [g1 b1].
  destruct (day_balance_first random_random burn avg freq (g, b)) as [g2 b2].
  cbn [gen balance projection fst snd] in *.
  split; [done|]. split; [done|].
  by rewrite Hp, (round_nd_proper _ _ 2 H2).
Qed.

Lemma loops_same burn avg freq days : ∀ (st : Run) g b pts,
  gen st = g → balance st == b → projection st = pts →
  let su := {| daily_burn := burn; avg_income_per_income_day := avg;
               income_frequency := freq; income_vol := 1 # 10;
               burn_vol := 5 # 100 |} in
  let st' := foldl (day_step random_random su) st days in
  let r := foldl (day_step_first random_random burn avg freq) (g, b, pts) days in
  gen st' = r.1.1 ∧ projection st' = r.2.
Proof.
  induction days as [|d days IH]; intros st g b pts Hg Hb Hp su; [done|].
  cbn [foldl].
  destruct (day_steps_same burn avg freq st g b pts d Hg Hb Hp) as (H1 & H2 & H3).
  fold su in H1, H2, H3.
  destruct (day_step_first random_random burn avg freq (g, b, pts) d)
    as [[g' b'] pts'].
  by apply IH.
Qed.

(** X21. The first definition of project_cash_flow (lines 75-122,
    overridden by the second) computes the projection list of the second
    definition called with its defaults and seed=None, and leaves the
    generator in the same state: the two differ only in that the second
    also returns the cashout day. *)
Theorem project_cash_flow_first_agrees transactions projection_days g :
  project_cash_flow_first strptime random_random transactions projection_days g
  = ((λ r, r.1) <$>
       (project_cash_flow strptime random_seed random_random transactions
          projection_days 30 (1 # 10) (5 # 100) None g).1,
     (project_cash_flow strptime random_seed random_random transactions
        projection_days 30 (1 # 10) (5 # 100) None g).2).
Proof.
  unfold project_cash_flow_first, project_cash_flow, run_setup.
  destruct transactions as [|tx transactions]; [done|].
  destruct (estimate_burn_rate strptime (tx :: transactions) 30) as [burn|e];
    [|done].
  cbn [mbind result_bind]. unfold income_pattern.
  set (income_dates := income_by_date (tx :: transactions)).
  case_bool_decide as Hsize.
  - cbn [mbind result_bind fst snd].
    destruct (loops_same burn 0 0 (py_range 1 (projection_days + 1))
                {| gen := g;
                   balance := current_balance (calculate_cash_flow (tx :: transactions));
                   projection := []; cashout_day := None |}
                g (current_balance (calculate_cash_flow (tx :: transactions))) []
                eq_refl ltac:(reflexivity) eq_refl) as [Hg Hp].
    cbn zeta in Hg, Hp. cbn [fmap result_fmap fst snd]. by rewrite Hg, Hp.
  - rewrite !py_div_Ok by (apply inject_Z_nonzero; lia).
    cbn [mbind result_bind fst snd].
    destruct (loops_same burn
                (map_fold (λ _ v acc, acc + v) 0 income_dates
                 / inject_Z (Z.of_nat (size income_dates)))
                (inject_Z (Z.of_nat (size income_dates)) / inject_Z 30)
                (py_range 1 (projection_days + 1))
                {| gen := g;
                   balance := current_balance (calculate_cash_flow (tx :: transactions));
                   projection := []; cashout_day := None |}
                g (current_balance (calculate_cash_flow (tx :: transactions))) []
                eq_refl ltac:(reflexivity) eq_refl) as [Hg Hp].
    cbn zeta in Hg, Hp. cbn [fmap result_fmap fst snd]. by rewrite Hg, Hp.
Qed.
End Replaced.

(** ** The percentile *)

Section Percentile.
Local Open Scope Q_scope.

Lemma percentile_index_low n p : (0 < n)%Z → p <= 0 → percentile_index n p = 0%Z.
Proof.
  intros Hn Hp. unfold percentile_index.
  assert (round_half_even (p / 100 * inject_Z (n - 1)) ≤ 0)%Z; [|lia].
  rewrite <- (round_half_even_inject 0). apply round_half_even_mono.
  assert (0 <= inject_Z (n - 1))
    by (change 0 with (inject_Z 0); rewrite <- Zle_Qle; lia).
  change (inject_Z 0) with 0.
  setoid_replace 0 with (0 / 100 * inject_Z (n - 1)) using relation Qeq
    by (unfold Qdiv; ring).
  apply Qmult_le_compat_r; [|done]. by apply Qmult_le_compat_r.
Qed.

Lemma percentile_index_high n p :
  (0 < n)%Z → 100 <= p → percentile_index n p = (n - 1)%Z.
Proof.
  intros Hn Hp. unfold percentile_index.
  assert (n - 1 ≤ round_half_even (p / 100 * inject_Z (n - 1)))%Z; [|lia].
  rewrite <- (round_half_even_inject (n - 1)) at 1. apply round_half_even_mono.
  assert (0 <= inject_Z (n - 1))
    by (change 0 with (inject_Z 0); rewrite <- Zle_Qle; lia).
  setoid_replace (inject_Z (n - 1)) with (100 / 100 * inject_Z (n - 1))
    using relation Qeq at 1 by (field).
  apply Qmult_le_compat_r; [|done]. by apply Qmult_le_compat_r.
Qed.

(** X22. On a non-empty list the inner percentile function always returns
    an element of the list; for p <= 0 it returns the first element (the
    minimum of the sorted endings) and for p >= 100 the last (the
    maximum), so out-of-range p is clamped, not an error. *)
Theorem percentile_picks (l : list Q) (p : Q) :
  l ≠ [] →
  (∃ x, percentile l p = Ok x ∧ x ∈ l) ∧
  (p <= 0 → percentile l p = py_index l 0) ∧
  (100 <= p → percentile l p = py_index l (-1)).
Proof.
  intros Hl.
  assert (Hn : (0 < Z.of_nat (length l))%Z) by (destruct l; [done|simpl; lia]).
  split_and!.
  - destruct (percentile_returns l p) as [x Hx]. exists x. split; [done|].
    apply percentile_Ok in Hx; [|done]. by eapply list_elem_of_lookup_2.
  - intros Hp. unfold percentile. rewrite bool_decide_false by lia.
    by rewrite percentile_index_low.
  - intros Hp. unfold percentile. rewrite bool_decide_false by lia.
    rewrite percentile_index_high by done.
    destruct (py_index_in_range l (Z.of_nat (length l) - 1)) as (x & -> & Hx);
      [lia|].
    rewrite py_index_last, last_lookup.
    replace (Z.to_nat (Z.of_nat (length l) - 1)) with (pred (length l)) in Hx by lia.
    by rewrite Hx.
Qed.

(** X23. For n >= 1 endings the index idx that percentile(50) uses
    satisfies n - 2 <= 2 * idx <= n; for odd n it is the middle index (n -
    1) / 2. For even n the median is therefore one of the two middle
    elements (which one is decided by round's ties-to-even), never their
    mean. *)
Theorem median_index (n : Z) :
  (0 < n)%Z →
  (n - 2 ≤ 2 * percentile_index n 50 ≤ n)%Z ∧
  (Z.odd n = true → percentile_index n 50 = ((n - 1) / 2)%Z).
Proof.
  intros Hn.
  assert (Hb : (n - 2 ≤ 2 * percentile_index n 50 ≤ n)%Z).
  { unfold percentile_index.
    destruct (round_half_even_error (50 / 100 * inject_Z (n - 1))) as [H1 H2].
    set (r := round_half_even _) in *.
    assert (Hr : (n - 2 ≤ 2 * r ≤ n)%Z).
    { rewrite inject_Z_pred in H1, H2.
      assert (E1 : inject_Z (n - 2) == inject_Z n - 2).
      { unfold Z.sub. rewrite inject_Z_plus, inject_Z_opp. reflexivity. }
      assert (E2 : inject_Z (2 * r) == 2 * inject_Z r).
      { rewrite inject_Z_mult. reflexivity. }
      assert (Hhalf : 50 / 100 * (inject_Z n - 1) == (1 # 2) * (inject_Z n - 1))
        by (field).
      rewrite Hhalf in H1, H2. clearbody r.
      set (x := inject_Z n) in *. set (y := inject_Z r) in *.
      split; rewrite Zle_Qle, ?E1, ?E2; fold x; fold y; lra. }
    lia. }
  split; [done|]. intros Hodd.
  apply Z.odd_spec in Hodd as [k ->].
  replace (2 * k + 1 - 1)%Z with (k * 2)%Z by lia. rewrite Z.div_mul by done.
  lia.
Qed.
End Percentile.

(** ** The projection handler *)

Section AnalyzeProjection.
Local Open Scope Q_scope.
Variable strptime : string → option Z.
Context {rng : Type}.
Variable random_seed : Z → rng.
Variable random_random : rng → Q * rng.

End AnalyzeProjection.

(** * Worked runs of the further properties *)









(** The run that dips to -5 on day 10: its recorded balance there is not
    positive, and on the nine days before it is not negative. *)
Lemma recorded_balance_around_cashout_witness :
  ∃ points g',
    project_cash_flow iso_strptime script_seed script_random
      recovery_transactions 11 30 (9 # 10) 0 None recovery_rng
    = (Ok (points, Some 10%Z), g') ∧
    (1 ≤ 10 ≤ 11)%Z ∧
    recorded points (Z.to_nat 10) <= 0 ∧
    ∀ j : nat, (1 ≤ j < Z.to_nat 10)%nat → 0 <= recorded points j.
Proof.
  eexists _, _. split; [vm_compute; reflexivity|].
  eapply (recorded_balance_around_cashout iso_strptime script_seed script_random
            recovery_transactions 11 30 (9 # 10) 0 None recovery_rng
            _ (Some 10%Z)).
  vm_compute. reflexivity.
Defined.


(** Eleven days with income: twenty-two draws. *)
Lemma project_cash_flow_draws_witness :
  draws_per_day recovery_setup = 2%nat ∧
  (project_cash_flow iso_strptime script_seed script_random
     recovery_transactions 11 30 (9 # 10) 0 None recovery_rng).2
  = after_draws script_random (2 * Z.to_nat 11) recovery_rng.
Proof.
  split; [reflexivity|].
  apply (project_cash_flow_draws iso_strptime script_seed script_random
           recovery_transactions 11 30 (9 # 10) 0 None recovery_rng
           recovery_setup); [done | vm_compute; reflexivity].
Defined.

(** The ledger with the bad date raises, and leaves the generator seeded. *)
Lemma project_cash_flow_raises_witness :
  project_cash_flow iso_strptime script_seed script_random
    broken_transactions 60 30 (1 # 10) (5 # 100) (Some 7%Z) recovery_rng
  = (Raise ValueError, script_seed 7).
Proof.
  destruct (project_cash_flow_raises iso_strptime script_seed script_random
              broken_transactions 60 30 (1 # 10) (5 # 100) (Some 7%Z)
              recovery_rng ltac:(done)) as [Hbad _].
  apply Hbad. apply Exists_cons_tl, Exists_cons_hd. vm_compute. reflexivity.
Defined.

(** Three runs of the sample ledger without volatility: one ending
    balance, no cashout. *)
Lemma run_monte_carlo_simulation_steady_witness :
  ∃ s,
    (run_monte_carlo_simulation iso_strptime script_seed script_random
       sample_transactions 3 3 30 0 0 (Some 42%Z) (script_seed 0)).1 = Ok s ∧
    ending_balance_worst s == ending_balance_p10 s ∧
    ending_balance_p10 s == ending_balance_median s ∧
    ending_balance_median s == ending_balance_p90 s ∧
    ending_balance_p90 s == ending_balance_best s ∧
    ((probability_cashout s == 0 ∧ cashout_count s = 0%Z) ∨
     (probability_cashout s == 1 ∧ cashout_count s = 3%Z)).
Proof.
  eexists. split; [vm_compute; reflexivity|].
  apply (run_monte_carlo_simulation_steady iso_strptime script_seed script_random
           sample_transactions 3 3 30 (Some 42%Z) (script_seed 0)).
  vm_compute. reflexivity.
Defined.

(** The orchestrator on the ledger with the bad date. *)
Lemma run_monte_carlo_simulation_raises_witness :
  run_monte_carlo_simulation iso_strptime script_seed script_random
    broken_transactions 200 60 30 (1 # 10) (5 # 100) (Some 42%Z) recovery_rng
  = (Raise ValueError, script_seed 42).
Proof.
  destruct (run_monte_carlo_simulation_raises iso_strptime script_seed
              script_random broken_transactions 200 60 30 (1 # 10) (5 # 100)
              (Some 42%Z) recovery_rng ltac:(lia) ltac:(done)) as [Hbad _].
  apply Hbad. apply Exists_cons_tl, Exists_cons_hd. vm_compute. reflexivity.
Defined.

(** The six runs of the thin ledger: their one cashout is on a day of
    the projection. *)
Lemma cashout_days_within_projection_witness :
  ∃ s,
    (run_monte_carlo_simulation iso_strptime script_seed script_random
       thin_transactions 6 8 30 (1 # 10) (5 # 100) (Some 42%Z) (script_seed 0)).1
    = Ok s ∧
    min_cashout_day s = Some 3%Z ∧
    (∀ lo, min_cashout_day s = Some lo → (1 ≤ lo ≤ 8)%Z) ∧
    (∀ hi, max_cashout_day s = Some hi → (1 ≤ hi ≤ 8)%Z) ∧
    (∀ avg, avg_cashout_day s = Some avg → 1 <= avg ∧ avg <= inject_Z 8).
Proof.
  eexists. split; [vm_compute; reflexivity|]. split; [reflexivity|].
  apply (cashout_days_within_projection iso_strptime script_seed script_random
           thin_transactions 6 8 30 (1 # 10) (5 # 100) (Some 42%Z) (script_seed 0)).
  vm_compute. reflexivity.
Defined.

(** The sale listed twice gives two distinct copies. *)
Lemma apply_scenario_modifiers_fresh_witness :
  ∃ adjusted σ',
    apply_scenario_modifiers [0; 0]%nat "base" two_objects = (Ok adjusted, σ') ∧
    length adjusted = 2%nat ∧
    NoDup adjusted ∧
    (∀ l, l ∈ adjusted → l ∉ dom two_objects) ∧
    dom σ' = dom two_objects ∪ list_to_set adjusted ∧
    size σ' = (size two_objects + 2)%nat.
Proof.
  apply (apply_scenario_modifiers_fresh two_objects [0; 0]%nat "base").
Defined.


(** 630, 800 and 960: the conservative, base and optimistic balances of
    the sale and the bill. *)
Lemma scenario_balance_order_witness :
  scenario_balance "conservative" two_objects [0; 1]%nat == 630 ∧
  scenario_balance "base" two_objects [0; 1]%nat == 800 ∧
  scenario_balance "optimistic" two_objects [0; 1]%nat == 960 ∧
  scenario_balance "conservative" two_objects [0; 1]%nat
  <= scenario_balance "base" two_objects [0; 1]%nat ∧
  scenario_balance "base" two_objects [0; 1]%nat
  <= scenario_balance "optimistic" two_objects [0; 1]%nat.
Proof.
  split; [by vm_compute|]. split; [by vm_compute|]. split; [by vm_compute|].
  apply (scenario_balance_order two_objects [0; 1]%nat).
  - apply two_objects_present.
  - repeat (constructor; [by vm_compute|]). constructor.
Defined.

(** With no key configured, a request that brings one is turned away. *)
Lemma verify_api_key_passes_witness :
  ∃ detail, verify_api_key None (Some "secret") = HTTPException 401 detail.
Proof.
  destruct (verify_api_key_passes None (Some "secret")) as (_ & _ & _ & Hunset).
  by apply Hunset.
Defined.

(** The smallest and the largest of three numbers. *)
Lemma percentile_picks_witness :
  percentile [1; 5; 9] (-10) = Ok 1 ∧ percentile [1; 5; 9] 250 = Ok 9.
Proof.
  destruct (percentile_picks [1; 5; 9] (-10) ltac:(done)) as (_ & Hlow & _).
  destruct (percentile_picks [1; 5; 9] 250 ltac:(done)) as (_ & _ & Hhigh).
  split.
  - rewrite Hlow; [reflexivity|by vm_compute].
  - rewrite Hhigh; [reflexivity|by vm_compute].
Defined.

(** Of the 200 runs of the default, the median is the one at index 100. *)
Lemma median_index_witness :
  percentile_index 200 50 = 100%Z ∧
  (200 - 2 ≤ 2 * percentile_index 200 50 ≤ 200)%Z.
Proof.
  split; [reflexivity|].
  apply (median_index 200). lia.
Defined.

